(** * The i2c connection object (package i2c, file i2c.go)

    A shallow embedding of the Go package: the [Conn] record, the error
    values, the ioctl helper, [NewConn], [Close], [Read], [Write] and the
    fixed-width integer helpers.  The Go methods are transcribed once, as
    programs over the primitive effects they perform (field loads and
    stores of a heap-allocated [Conn], the mutex, the calls into package
    os and the ioctl system call); the programs are then run against an
    arbitrary file layer. *)

From Stdlib Require Import ZArith List Lia.
From stdpp Require Import base option list strings pretty.
From coqutil Require Import Z.bitblast Z.prove_Zeq_bitwise.

Local Open Scope Z_scope.

(** ** encoding/binary: the two byte orders of the standard library *)

Module binary.

(** The implementations of the interface [binary.ByteOrder]. *)
Inductive ByteOrder := LittleEndian | BigEndian.

(** [byte(v)]: conversion of an unsigned integer to 8 bits. *)
Definition byte_of (v : Z) : Z := v mod 256.

(** [b[i]] on a buffer that is long enough (the helpers of this package
    always pass a buffer of the exact width). *)
Definition idx (b : list Z) (i : nat) : Z := nth i b 0.

(** [x << k] at an unsigned type of [w] bits. *)
Definition shl (w x k : Z) : Z := Z.shiftl x k mod 2 ^ w.

Definition Uint16 (o : ByteOrder) (b : list Z) : Z :=
  match o with
  | LittleEndian => Z.lor (idx b 0) (shl 16 (idx b 1) 8)
  | BigEndian => Z.lor (idx b 1) (shl 16 (idx b 0) 8)
  end.

Definition PutUint16 (o : ByteOrder) (b : list Z) (v : Z) : list Z :=
  match o with
  | LittleEndian =>
      <[1%nat := byte_of (Z.shiftr v 8)]> (<[0%nat := byte_of v]> b)
  | BigEndian =>
      <[1%nat := byte_of v]> (<[0%nat := byte_of (Z.shiftr v 8)]> b)
  end.

Definition Uint32 (o : ByteOrder) (b : list Z) : Z :=
  match o with
  | LittleEndian =>
      Z.lor (Z.lor (Z.lor (idx b 0) (shl 32 (idx b 1) 8))
                   (shl 32 (idx b 2) 16))
            (shl 32 (idx b 3) 24)
  | BigEndian =>
      Z.lor (Z.lor (Z.lor (idx b 3) (shl 32 (idx b 2) 8))
                   (shl 32 (idx b 1) 16))
            (shl 32 (idx b 0) 24)
  end.

Definition PutUint32 (o : ByteOrder) (b : list Z) (v : Z) : list Z :=
  match o with
  | LittleEndian =>
      <[3%nat := byte_of (Z.shiftr v 24)]>
        (<[2%nat := byte_of (Z.shiftr v 16)]>
           (<[1%nat := byte_of (Z.shiftr v 8)]> (<[0%nat := byte_of v]> b)))
  | BigEndian =>
      <[3%nat := byte_of v]>
        (<[2%nat := byte_of (Z.shiftr v 8)]>
           (<[1%nat := byte_of (Z.shiftr v 16)]>
              (<[0%nat := byte_of (Z.shiftr v 24)]> b)))
  end.

Definition Uint64 (o : ByteOrder) (b : list Z) : Z :=
  match o with
  | LittleEndian =>
      Z.lor (Z.lor (Z.lor (Z.lor (Z.lor (Z.lor (Z.lor
        (idx b 0) (shl 64 (idx b 1) 8)) (shl 64 (idx b 2) 16))
        (shl 64 (idx b 3) 24)) (shl 64 (idx b 4) 32))
        (shl 64 (idx b 5) 40)) (shl 64 (idx b 6) 48))
        (shl 64 (idx b 7) 56)
  | BigEndian =>
      Z.lor (Z.lor (Z.lor (Z.lor (Z.lor (Z.lor (Z.lor
        (idx b 7) (shl 64 (idx b 6) 8)) (shl 64 (idx b 5) 16))
        (shl 64 (idx b 4) 24)) (shl 64 (idx b 3) 32))
        (shl 64 (idx b 2) 40)) (shl 64 (idx b 1) 48))
        (shl 64 (idx b 0) 56)
  end.

Definition PutUint64 (o : ByteOrder) (b : list Z) (v : Z) : list Z :=
  match o with
  | LittleEndian =>
      <[7%nat := byte_of (Z.shiftr v 56)]>
        (<[6%nat := byte_of (Z.shiftr v 48)]>
        (<[5%nat := byte_of (Z.shiftr v 40)]>
        (<[4%nat := byte_of (Z.shiftr v 32)]>
        (<[3%nat := byte_of (Z.shiftr v 24)]>
        (<[2%nat := byte_of (Z.shiftr v 16)]>
        (<[1%nat := byte_of (Z.shiftr v 8)]>
        (<[0%nat := byte_of v]> b)))))))
  | BigEndian =>
      <[7%nat := byte_of v]>
        (<[6%nat := byte_of (Z.shiftr v 8)]>
        (<[5%nat := byte_of (Z.shiftr v 16)]>
        (<[4%nat := byte_of (Z.shiftr v 24)]>
        (<[3%nat := byte_of (Z.shiftr v 32)]>
        (<[2%nat := byte_of (Z.shiftr v 40)]>
        (<[1%nat := byte_of (Z.shiftr v 48)]>
        (<[0%nat := byte_of (Z.shiftr v 56)]> b)))))))
  end.

End binary.

Import binary.

(** ** Data model *)

(** Errors a caller can observe: the three package-level values, a
    [syscall.Errno] stored by the ioctl callback, and whatever package os
    returned (passed on unchanged). *)
Inductive error :=
| ErrInvalid
| ErrClosed
| ErrTruncated
| Errno (eno : Z)
| OSError (code : Z).

(** Identity of an [*os.File]. *)
Abbreviation File := nat (only parsing).

(** Address of a heap-allocated [Conn]; a [*Conn] is [option loc], with
    [None] for nil. *)
Abbreviation loc := nat (only parsing).
Abbreviation ptr := (option nat) (only parsing).

(** The struct [Conn].  [mu] is [true] while the mutex is held; [f] and
    [endian] are [None] for a nil [*os.File] and a nil interface value. *)
Record Conn := mkConn {
  bus : string;
  addr : Z;
  mu : bool;
  f : option File;
  endian : option ByteOrder
}.

Definition set_mu (b : bool) (c : Conn) : Conn :=
  mkConn (bus c) (addr c) b (f c) (endian c).

Definition set_f (v : option File) (c : Conn) : Conn :=
  mkConn (bus c) (addr c) (mu c) v (endian c).

(** Constants of /usr/include/linux/i2c-dev.h. *)
Definition RETRIES : Z := 0x0701.
Definition TIMEOUT : Z := 0x0702.
Definition SLAVE : Z := 0x0703.
Definition SLAVE_FORCE : Z := 0x0706.
Definition TENBIT : Z := 0x0704.
Definition FUNCS : Z := 0x0705.
Definition RDWR : Z := 0x0707.
Definition PEC : Z := 0x0708.
Definition SMBUS : Z := 0x0720.

(** ** Primitive effects and programs *)

(** What the methods do besides computing: calls into package os and
    syscall with their results, and accesses to a [Conn] in the heap. *)
Inductive cmd : Type -> Type :=
| OpenFile (name : string) : cmd (File + Z)
    (* os.OpenFile(name, os.O_RDWR, 0600) *)
| SyscallConn (fd : File) : cmd (option Z)
    (* fd.SyscallConn(): the error, if any *)
| Control (fd : File) : cmd (option Z)
    (* sc.Control(cb): [Some e] when it returns e without running cb,
       [None] when cb is run *)
| SysIoctl (fd : File) (req arg : Z) : cmd Z
    (* syscall.Syscall(SYS_IOCTL, fd, req, arg): the errno *)
| FClose (fd : File) : cmd (option Z)
| FRead (fd : File) (data : list Z) : cmd (list Z * Z * option Z)
    (* fd.Read(data): the buffer afterwards, n and the error *)
| FWrite (fd : File) (data : list Z) : cmd (Z * option Z)
| New (c : Conn) : cmd loc
| LoadF (l : loc) : cmd (option File)
| StoreF (l : loc) (v : option File) : cmd unit
| LoadEndian (l : loc) : cmd (option ByteOrder)
| Lock (l : loc) : cmd unit
| Unlock (l : loc) : cmd unit.

Inductive prog (A : Type) : Type :=
| Ret (a : A)
| Panic
| Vis {X : Type} (c : cmd X) (k : X -> prog A).

Arguments Ret {A} a.
Arguments Panic {A}.
Arguments Vis {A X} c k.

Fixpoint bind {A B : Type} (p : prog A) (g : A -> prog B) : prog B :=
  match p with
  | Ret a => g a
  | Panic => Panic
  | Vis c k => Vis c (fun x => bind (k x) g)
  end.

Definition call {X : Type} (c : cmd X) : prog X := Vis c Ret.

(** [defer d; body]: [d] runs when the function returns, by a return
    statement or by a panic. *)
Fixpoint defer {A : Type} (d : prog unit) (body : prog A) : prog A :=
  match body with
  | Ret a => bind d (fun _ => Ret a)
  | Panic => bind d (fun _ => Panic)
  | Vis c k => Vis c (fun x => defer d (k x))
  end.

Declare Scope prog_scope.
Delimit Scope prog_scope with prog.
Notation "x <- p ;; q" := (bind p (fun x => q))
  (at level 100, p at next level, right associativity) : prog_scope.
Notation "p ;; q" := (bind p (fun _ => q))
  (at level 100, right associativity) : prog_scope.
Local Open Scope prog_scope.

(** ** The package, method by method *)

Definition error_of (r : option Z) : option error := OSError <$> r.

(** [func (c *Conn) ioctl(cmd uintptr, arg uintptr) error] *)
Definition ioctl (c : ptr) (req arg : Z) : prog (option error) :=
  match c with
  | None => Ret (Some ErrInvalid)
  | Some l =>
      file <- call (LoadF l) ;;
      match file with
      | None => Ret (Some ErrClosed)
      | Some fd =>
          err <- call (SyscallConn fd) ;;
          match err with
          | Some e => Ret (Some (OSError e))
          | None =>
              (* sc.Control(func(fd uintptr) {...}): its result is dropped *)
              entered <- call (Control fd) ;;
              match entered with
              | Some _ => Ret None
              | None =>
                  eno <- call (SysIoctl fd req arg) ;;
                  if eno =? 0 then Ret None else Ret (Some (Errno eno))
              end
          end
      end
  end.

(** [func (c *Conn) Close() error] *)
Definition Close (c : ptr) : prog (option error) :=
  match c with
  | None => Ret (Some ErrInvalid)
  | Some l =>
      call (Lock l) ;;
      defer (call (Unlock l))
        (file <- call (LoadF l) ;;
         match file with
         | None => Ret (Some ErrClosed)
         | Some fd =>
             err <- call (FClose fd) ;;
             call (StoreF l None) ;;
             Ret (error_of err)
         end)
  end.

(** [func NewConn(bus string, addr uint, tenBit bool,
    endian binary.ByteOrder) ( *Conn, error)] *)
Definition NewConn (bus : string) (addr : Z) (tenBit : bool)
    (endian : option ByteOrder) : prog (ptr * option error) :=
  r <- call (OpenFile bus) ;;
  match r with
  | inr e => Ret (None, Some (OSError e))
  | inl fd =>
      (* c := &Conn{bus: bus, addr: addr, f: f} *)
      l <- call (New (mkConn bus addr false (Some fd) None)) ;;
      let c := Some l in
      err <- (if tenBit then ioctl c TENBIT 1 else ioctl c TENBIT 0) ;;
      err <- match err with
             | None => ioctl c SLAVE addr
             | Some _ => Ret err
             end ;;
      match err with
      | Some e => Close c ;; Ret (None, Some e)
      | None => Ret (c, None)
      end
  end.

(** [func (c *Conn) Read(data []byte) (int, error)]; the buffer is passed
    in and handed back with what the file layer stored in it. *)
Definition Read (c : ptr) (data : list Z) : prog (list Z * Z * option error) :=
  match c with
  | None => Ret (data, 0, Some ErrInvalid)
  | Some l =>
      call (Lock l) ;;
      defer (call (Unlock l))
        (file <- call (LoadF l) ;;
         match file with
         | None => Ret (data, 0, Some ErrClosed)
         | Some fd =>
             r <- call (FRead fd data) ;;
             let '(data', n, err) := r in
             Ret (data', n, error_of err)
         end)
  end.

(** [func (c *Conn) Write(data []byte) (int, error)] *)
Definition Write (c : ptr) (data : list Z) : prog (Z * option error) :=
  match c with
  | None => Ret (0, Some ErrInvalid)
  | Some l =>
      call (Lock l) ;;
      defer (call (Unlock l))
        (file <- call (LoadF l) ;;
         match file with
         | None => Ret (0, Some ErrClosed)
         | Some fd =>
             r <- call (FWrite fd data) ;;
             let '(n, err) := r in
             Ret (n, error_of err)
         end)
  end.

(** [make([]byte, n)] *)
Definition make (n : nat) : list Z := replicate n 0.

(** [c.endian.M(...)]: a method call on the interface value stored in the
    field; on a nil interface it panics. *)
Definition with_endian {A : Type} (l : loc) (k : ByteOrder -> prog A) : prog A :=
  o <- call (LoadEndian l) ;;
  match o with
  | None => Panic
  | Some bo => k bo
  end.

(** The shared shape of [ReadUint16], [ReadUint32] and [ReadUint64]. *)
Definition ReadUint (width : nat) (dec : ByteOrder -> list Z -> Z)
    (c : ptr) : prog (Z * option error) :=
  let d := make width in
  r <- Read c d ;;
  let '(d', n, err) := r in
  match err with
  | Some e => Ret (0, Some e)
  | None =>
      if negb (n =? Z.of_nat (length d)) then Ret (0, Some ErrTruncated)
      else
        match c with
        | None => Panic
        | Some l => with_endian l (fun bo => Ret (dec bo d', None))
        end
  end.

(** The shared shape of [WriteUint16], [WriteUint32] and [WriteUint64]. *)
Definition WriteUint (width : nat) (enc : ByteOrder -> list Z -> Z -> list Z)
    (c : ptr) (val : Z) : prog (option error) :=
  match c with
  | None => Ret (Some ErrInvalid)
  | Some l =>
      let d := make width in
      with_endian l (fun bo =>
        let d := enc bo d val in
        r <- Write c d ;;
        let '(n, err) := r in
        match err with
        | Some e => Ret (Some e)
        | None =>
            if negb (n =? Z.of_nat (length d)) then Ret (Some ErrTruncated)
            else Ret None
        end)
  end.

Definition ReadUint16 : ptr -> prog (Z * option error) := ReadUint 2 Uint16.
Definition WriteUint16 : ptr -> Z -> prog (option error) := WriteUint 2 PutUint16.
Definition ReadUint32 : ptr -> prog (Z * option error) := ReadUint 4 Uint32.
Definition WriteUint32 : ptr -> Z -> prog (option error) := WriteUint 4 PutUint32.
Definition ReadUint64 : ptr -> prog (Z * option error) := ReadUint 8 Uint64.
Definition WriteUint64 : ptr -> Z -> prog (option error) := WriteUint 8 PutUint64.

(** ** Running programs against a file layer *)

(** What package os and the kernel do is not part of this package: a file
    layer is any family of functions over some state [W] giving the result
    of each call.  Errors of the layer are numbered; a caller sees them as
    [OSError]. *)
Record FileLayer (W : Type) := mkFileLayer {
  os_open : string -> W -> (File + Z) * W;
  os_syscallconn : File -> W -> option Z * W;
  os_control : File -> W -> option Z * W;
  os_ioctl : File -> Z -> Z -> W -> Z * W;
  os_close : File -> W -> option Z * W;
  os_read : File -> nat -> W -> (list Z * Z * option Z) * W;
  os_write : File -> list Z -> W -> (Z * option Z) * W
}.

Arguments os_open {W}.
Arguments os_syscallconn {W}.
Arguments os_control {W}.
Arguments os_ioctl {W}.
Arguments os_close {W}.
Arguments os_read {W}.
Arguments os_write {W}.

(** The calls that leave the package, in the order they happen. *)
Inductive event :=
| EvOpen (name : string) (r : File + Z)
| EvSyscallConn (fd : File) (r : option Z)
| EvControl (fd : File) (r : option Z)
| EvIoctl (fd : File) (req arg eno : Z)
| EvClose (fd : File) (r : option Z)
| EvRead (fd : File) (len : nat) (got : list Z) (n : Z) (r : option Z)
| EvWrite (fd : File) (data : list Z) (n : Z) (r : option Z)
| EvLock (l : loc)
| EvUnlock (l : loc).

(** How a call ends: with a value; in a panic; waiting for a mutex that is
    held; or stopped by the runtime (the fatal error of unlocking a mutex
    that is not locked, and an address at which the heap holds no [Conn],
    which no pointer obtained from [New] is). *)
Inductive outcome (A : Type) :=
| Done (a : A)
| Panicked
| Blocked
| Crashed.

Arguments Done {A} a.
Arguments Panicked {A}.
Arguments Blocked {A}.
Arguments Crashed {A}.

(** A read stores the bytes it got at the front of the caller's buffer
    and leaves the rest as it was. *)
Definition fill (data got : list Z) : list Z :=
  take (length data) (map byte_of got ++ drop (length got) data).

Record state (W : Type) := mkState {
  heap : list Conn;
  world : W
}.

Arguments mkState {W}.
Arguments heap {W}.
Arguments world {W}.

Section Run.

Context {W : Type} (os : FileLayer W).

Definition result (A : Type) : Type := outcome A * state W * list event.

Definition on_world {X : Type} (s : state W) (r : X * W) (ev : X -> event)
  : result X :=
  (Done (fst r), mkState (heap s) (snd r), [ev (fst r)]).

Definition on_conn {X : Type} (s : state W) (l : loc)
    (k : Conn -> result X) : result X :=
  match heap s !! l with
  | Some c => k c
  | None => (Crashed, s, [])
  end.

Definition store (s : state W) (l : loc) (c : Conn) : state W :=
  mkState (<[l := c]> (heap s)) (world s).

Definition exec {X : Type} (c : cmd X) (s : state W) : result X :=
  match c in cmd X return result X with
  | OpenFile name => on_world s (os_open os name (world s)) (EvOpen name)
  | SyscallConn fd =>
      on_world s (os_syscallconn os fd (world s)) (EvSyscallConn fd)
  | Control fd => on_world s (os_control os fd (world s)) (EvControl fd)
  | SysIoctl fd req arg =>
      on_world s (os_ioctl os fd req arg (world s)) (EvIoctl fd req arg)
  | FClose fd => on_world s (os_close os fd (world s)) (EvClose fd)
  | FRead fd data =>
      let '(got, n, err, w) := os_read os fd (length data) (world s) in
      (Done (fill data got, n, err), mkState (heap s) w,
       [EvRead fd (length data) got n err])
  | FWrite fd data =>
      let '(n, err, w) := os_write os fd data (world s) in
      (Done (n, err), mkState (heap s) w, [EvWrite fd data n err])
  | New c => (Done (length (heap s)), mkState (heap s ++ [c]) (world s), [])
  | LoadF l => on_conn s l (fun c => (Done (f c), s, []))
  | StoreF l v => on_conn s l (fun c => (Done tt, store s l (set_f v c), []))
  | LoadEndian l => on_conn s l (fun c => (Done (endian c), s, []))
  | Lock l =>
      on_conn s l (fun c =>
        if mu c then (Blocked, s, [])
        else (Done tt, store s l (set_mu true c), [EvLock l]))
  | Unlock l =>
      on_conn s l (fun c =>
        if mu c then (Done tt, store s l (set_mu false c), [EvUnlock l])
        else (Crashed, s, []))
  end.

Definition after {A X : Type} (r : result X)
    (k : X -> state W -> result A) : result A :=
  match r with
  | (Done x, s, t) =>
      let '(o, s', t') := k x s in (o, s', t ++ t')
  | (Panicked, s, t) => (Panicked, s, t)
  | (Blocked, s, t) => (Blocked, s, t)
  | (Crashed, s, t) => (Crashed, s, t)
  end.

Fixpoint run {A : Type} (p : prog A) (s : state W) : result A :=
  match p with
  | Ret a => (Done a, s, [])
  | Panic => (Panicked, s, [])
  | Vis c k => after (exec c s) (fun x => run (k x))
  end.

(** What the ioctl helper does on a connection whose file is [fd], as a
    function of the file layer alone (see [run_ioctl_open]). *)
Definition ioctl_fd (fd : File) (req arg : Z) (w : W)
  : option error * W * list event :=
  let '(r, w1) := os_syscallconn os fd w in
  match r with
  | Some e => (Some (OSError e), w1, [EvSyscallConn fd r])
  | None =>
      let '(r', w2) := os_control os fd w1 in
      match r' with
      | Some _ => (None, w2, [EvSyscallConn fd r; EvControl fd r'])
      | None =>
          let '(eno, w3) := os_ioctl os fd req arg w2 in
          (if eno =? 0 then None else Some (Errno eno), w3,
           [EvSyscallConn fd r; EvControl fd r'; EvIoctl fd req arg eno])
      end
  end.

(** A loopback device: whatever is written to [fd] is accepted whole, and
    the next read of that many bytes returns exactly those bytes. *)
Definition echoes (fd : File) (w : W) : Prop :=
  forall data : list Z, exists w1 w2 : W,
    os_write os fd data w = (Z.of_nat (length data), None, w1) /\
    os_read os fd (length data) w1 =
      (data, Z.of_nat (length data), None, w2).

End Run.

Arguments result : clear implicits.

Definition outcome_of {W A : Type} (r : result W A) : outcome A := fst (fst r).
Definition state_of {W A : Type} (r : result W A) : state W := snd (fst r).
Definition events_of {W A : Type} (r : result W A) : list event := snd r.

(** The calls the ioctl helper makes. *)
Definition is_config (ev : event) : Prop :=
  match ev with
  | EvSyscallConn _ _ | EvControl _ _ | EvIoctl _ _ _ _ => True
  | _ => False
  end.

(** A configuration call failed with [e]: [SyscallConn] returned an error,
    or the ioctl system call returned a non-zero errno. *)
Definition config_failure (t : list event) (e : error) : Prop :=
  (exists fd req arg eno,
      In (EvIoctl fd req arg eno) t /\ eno <> 0 /\ e = Errno eno) \/
  (exists fd code, In (EvSyscallConn fd (Some code)) t /\ e = OSError code).

(** ** Several goroutines on one connection

    Goroutines run interleaved, one primitive effect at a time; a
    goroutine whose next effect is a [Lock] of a held mutex does not
    move. *)

(** What a primitive effect is to the connection at [l]: taking or
    releasing its mutex, an access to its handle (the field [f], or a
    read, write or close of a file), or something else. *)
Inductive action := ALock | AUnlock | AAccess | AOther.

Definition action_of (l : loc) {X : Type} (c : cmd X) : action :=
  match c with
  | Lock l' => if (l' =? l)%nat then ALock else AOther
  | Unlock l' => if (l' =? l)%nat then AUnlock else AOther
  | LoadF l' => if (l' =? l)%nat then AAccess else AOther
  | StoreF l' _ => if (l' =? l)%nat then AAccess else AOther
  | FRead _ _ => AAccess
  | FWrite _ _ => AAccess
  | FClose _ => AAccess
  | _ => AOther
  end.

(** [brackets l h h' p]: run by a goroutine that holds ([h = true]) or
    does not hold the mutex of [l], the program [p] takes the mutex only
    when it does not hold it, releases it and accesses the handle only
    while it holds it, and returns holding it or not as [h'] says. *)
Fixpoint brackets (l : loc) {A : Type} (h h' : bool) (p : prog A) : Prop :=
  match p with
  | Ret _ => h = h'
  | Panic => False
  | Vis c k =>
      match action_of l c with
      | ALock => h = false /\ forall x, brackets l true h' (k x)
      | AUnlock => h = true /\ forall x, brackets l false h' (k x)
      | AAccess => h = true /\ forall x, brackets l true h' (k x)
      | AOther => forall x, brackets l h h' (k x)
      end
  end.

(** [under_mutex l p]: the program [p], entered with the mutex of [l]
    held, goes on holding it through everything it does, and the release
    is its last effect: after it, it returns at once.  It does not
    return, nor panic, with the mutex held, and it does not take the
    mutex again. *)
Fixpoint under_mutex (l : loc) {A : Type} (p : prog A) : Prop :=
  match p with
  | Ret _ => False
  | Panic => False
  | Vis c k =>
      match action_of l c with
      | ALock => False
      | AUnlock => forall x, exists a, k x = Ret a
      | AAccess => forall x, under_mutex l (k x)
      | AOther => forall x, under_mutex l (k x)
      end
  end.

(** [holds_mutex_throughout l p]: the first effect of [p] is to take the
    mutex of [l], and from there [p] runs under the mutex, to the release
    that ends it. *)
Definition holds_mutex_throughout (l : loc) {A : Type} (p : prog A) : Prop :=
  match p with
  | Vis c k => action_of l c = ALock /\ forall x, under_mutex l (k x)
  | _ => False
  end.

(** A call of one of the three methods, and a goroutine that makes a
    sequence of such calls on a connection. *)
Inductive method :=
| CallRead (data : list Z)
| CallWrite (data : list Z)
| CallClose.

Definition perform (c : ptr) (m : method) : prog unit :=
  match m with
  | CallRead data => Read c data ;; Ret tt
  | CallWrite data => Write c data ;; Ret tt
  | CallClose => Close c ;; Ret tt
  end.

Fixpoint goroutine (c : ptr) (calls : list method) : prog unit :=
  match calls with
  | [] => Ret tt
  | m :: rest => perform c m ;; goroutine c rest
  end.

(** Who holds the mutex, as the trace of actions tells: [None] when the
    trace breaks the rules (a lock taken while held, a release or an
    access by a goroutine that does not hold it). *)
Definition follow (owner : option nat) (step : nat * action)
  : option (option nat) :=
  match step, owner with
  | (i, ALock), None => Some (Some i)
  | (i, ALock), Some _ => None
  | (i, AUnlock), Some j => if (i =? j)%nat then Some None else None
  | (i, AUnlock), None => None
  | (i, AAccess), Some j => if (i =? j)%nat then Some owner else None
  | (i, AAccess), None => None
  | (_, AOther), _ => Some owner
  end.

Fixpoint serialized (owner : option nat) (tr : list (nat * action)) : bool :=
  match tr with
  | [] => true
  | step :: rest =>
      match follow owner step with
      | Some owner' => serialized owner' rest
      | None => false
      end
  end.

Section Goroutines.

Context {W : Type} (os : FileLayer W) (l : loc).

(** Goroutine [i] makes its next primitive effect, if it has one and is
    not kept waiting. *)
Definition gstep (i : nat) (cfg : state W * list (prog unit))
  : option ((nat * action) * (state W * list (prog unit))) :=
  match snd cfg !! i with
  | Some (Vis c k) =>
      match exec os c (fst cfg) with
      | (Done x, s', _) => Some ((i, action_of l c), (s', <[i := k x]> (snd cfg)))
      | _ => None
      end
  | _ => None
  end.

(** The goroutines run as a schedule says: a list of goroutine numbers,
    each giving the turn to one goroutine. *)
Fixpoint interleave (sched : list nat) (cfg : state W * list (prog unit))
  : list (nat * action) * (state W * list (prog unit)) :=
  match sched with
  | [] => ([], cfg)
  | i :: rest =>
      match gstep i cfg with
      | Some (step, cfg') =>
          let '(tr, cfg'') := interleave rest cfg' in (step :: tr, cfg'')
      | None => interleave rest cfg
      end
  end.

(** Whether goroutine [i] is the one that holds the mutex. *)
Definition holder (owner : option nat) (i : nat) : bool :=
  match owner with
  | Some j => (i =? j)%nat
  | None => false
  end.

(** What stays true while goroutines that respect the brackets run: the
    mutex of the connection is held exactly when it has an owner, and
    each goroutine continues with a program that respects the brackets
    from where it stands. *)
Definition mutex_inv (owner : option nat)
    (cfg : state W * list (prog unit)) : Prop :=
  (exists c, heap (fst cfg) !! l = Some c /\ mu c = bool_decide (is_Some owner)) /\
  forall i p, snd cfg !! i = Some p -> brackets l (holder owner i) false p.

End Goroutines.

(** ** A mock device

    A file layer with scripted answers and a backing store: a write keeps
    the bytes it is given, the first [n] of them when [m_accept] is
    [Some n]; a read returns the front of what is kept. *)
Record mock := mkMock {
  m_open : File + Z;
  m_syscallconn : option Z;
  m_control : option Z;
  m_errno : Z -> Z;
  m_close : option Z;
  m_accept : option nat;
  m_store : list Z
}.

Definition accepted (w : mock) (data : list Z) : list Z :=
  match m_accept w with
  | Some n => take n data
  | None => data
  end.

Definition mock_write (data : list Z) (w : mock) : mock :=
  mkMock (m_open w) (m_syscallconn w) (m_control w) (m_errno w) (m_close w)
         (m_accept w) (accepted w data).

Definition mock_os : FileLayer mock :=
  mkFileLayer mock
    (fun _ w => (m_open w, w))
    (fun _ w => (m_syscallconn w, w))
    (fun _ w => (m_control w, w))
    (fun _ req _ w => (m_errno w req, w))
    (fun _ w => (m_close w, w))
    (fun _ len w =>
       (take len (m_store w), Z.of_nat (length (take len (m_store w))), None, w))
    (fun _ data w =>
       (Z.of_nat (length (accepted w data)), None, mock_write data w)).

(** A device on which every call succeeds. *)
Definition loopback : mock :=
  mkMock (inl 3%nat) None None (fun _ => 0) None None [].

(** A device that takes one byte of a write and has one byte to read. *)
Definition short_device : mock :=
  mkMock (inl 3%nat) None None (fun _ => 0) None (Some 1%nat) [7].

(** A device whose slave-address ioctl fails with EBUSY (16), and whose
    close fails too. *)
Definition busy_device : mock :=
  mkMock (inl 3%nat) None None (fun req => if req =? SLAVE then 16 else 0)
         (Some 5) None [].

(** A device on which [Control] returns an error instead of running the
    callback. *)
Definition deaf_device : mock :=
  mkMock (inl 3%nat) None (Some 9) (fun _ => 0) None None [].

(** A device with eight bytes to read. *)
Definition full_device : mock :=
  mkMock (inl 3%nat) None None (fun _ => 0) None None [1; 2; 3; 4; 5; 6; 7; 8].

(** A device on which closing the file fails with EIO (5). *)
Definition stale_device : mock :=
  mkMock (inl 3%nat) None None (fun _ => 0) (Some 5) None [].

(** A heap with one connection, at address 0, open on file 3, and a
    device. *)
Definition opened (o : option ByteOrder) (w : mock) : state mock :=
  mkState [mkConn "/dev/i2c-1" 0x76 false (Some 3%nat) o] w.


(** ** What an operation may change

    [c'] is [c] with, at most, its handle set to nil. *)
Definition same_but_handle (c c' : Conn) : Prop :=
  bus c' = bus c /\ addr c' = addr c /\ mu c' = mu c /\
  endian c' = endian c /\ (f c' = f c \/ f c' = None).

(** Between [s] and [s'] no connection was added or removed, the one
    [p] points to changed at most by losing its handle, and all the
    others are as they were. *)
Definition only_handle_of {W : Type} (p : ptr) (s s' : state W) : Prop :=
  length (heap s') = length (heap s) /\
  forall (l : loc) (c : Conn),
    heap s !! l = Some c ->
    exists c', heap s' !! l = Some c' /\ same_but_handle c c' /\
               (p <> Some l -> c' = c).

(** ** BusFile *)

(** [func BusFile(n uint) string]: [fmt.Sprintf("/dev/i2c-%d", n)]. *)
Definition BusFile (n : N) : string := "/dev/i2c-" +:+ pretty n.

(** ** The example program s35390.go: the real time clock *)

Module s35390.

(** [bits.Reverse8]: the byte with its bits in reverse order. *)
Definition Reverse8 (x : Z) : Z :=
  fold_right
    (fun i acc =>
       Z.lor acc (if Z.testbit x (Z.of_nat i)
                  then Z.shiftl 1 (7 - Z.of_nat i) else 0))
    0 (seq 0 8).

(** [uint8(v)] of an int. *)
Definition uint8 (v : Z) : Z := v mod 256.

(** [func toDeviceBCD(v int) byte]; the division and remainder of Go
    round towards zero, the arithmetic is that of uint8. *)
Definition toDeviceBCD (v : Z) : Z :=
  Reverse8 (uint8 (uint8 (Z.shiftl (uint8 (Z.quot v 10)) 4)
                   + uint8 (Z.rem v 10))).

(** [func fromDeviceBCD(u byte) int] *)
Definition fromDeviceBCD (u : Z) : Z :=
  let v := Reverse8 u in
  uint8 (uint8 (Z.shiftr v 4 * 10) + Z.land v 0xf).

(** The device offsets [sr1 = 0x30 + iota] and following. *)
Definition sr1 : Z := 0x30.
Definition sr2 : Z := 0x31.
Definition rtd1 : Z := 0x32.
Definition rtd2 : Z := 0x33.
Definition int1 : Z := 0x34.
Definition int2 : Z := 0x35.
Definition clkc : Z := 0x36.
Definition free : Z := 0x37.

(** SetDate refuses a year [y = goal.Year() - 2000] with
    [y >= 100 || y < 0]. *)
Definition settable (y : Z) : bool := negb ((y >=? 100) || (y <? 0)).

(** The seven bytes SetDate builds and writes ([buf[0]] to [buf[6]]),
    from the fields of the time to set; [y] is the year minus 2000. *)
Definition date_bytes (y month day weekday h minute second : Z) : list Z :=
  let pm := if h <? 12 then 0 else 2 in
  [toDeviceBCD y; toDeviceBCD month; toDeviceBCD day; toDeviceBCD weekday;
   Z.lor (toDeviceBCD h) pm; toDeviceBCD minute; toDeviceBCD second].

(** The year, month, day, hour, minute and second Now passes to
    [time.Date], from the seven bytes it read; [^byte(3)] is 0xfc. *)
Definition date_fields (buf : list Z) : Z * Z * Z * Z * Z * Z :=
  (2000 + fromDeviceBCD (idx buf 0), fromDeviceBCD (idx buf 1),
   fromDeviceBCD (idx buf 2), fromDeviceBCD (Z.land (idx buf 4) 0xfc),
   fromDeviceBCD (idx buf 5), fromDeviceBCD (idx buf 6)).

End s35390.

(** A bus file that cannot be opened (ENOENT), and a device that refuses
    the ten-bit ioctl (EINVAL). *)
Definition absent_device : mock :=
  mkMock (inr 2) None None (fun _ => 0) None None [].

Definition seven_bit_device : mock :=
  mkMock (inl 3%nat) None None (fun req => if req =? TENBIT then 22 else 0)
         None None [].

(** A file layer on which every read and write reports the full count
    together with the error kept in its state. *)
Definition failing_os : FileLayer Z :=
  mkFileLayer Z
    (fun _ w => (inl 3%nat, w))
    (fun _ w => (None, w))
    (fun _ w => (None, w))
    (fun _ _ _ w => (0, w))
    (fun _ w => (None, w))
    (fun _ len w => (replicate len 9, Z.of_nat len, Some w, w))
    (fun _ data w => (Z.of_nat (length data), Some w, w)).

(** ** The wire format, in arithmetic *)

(** The [width] low bytes of [v], most significant first. *)
Definition big_endian_bytes (width : nat) (v : Z) : list Z :=
  map (fun i => (v / 256 ^ Z.of_nat i) mod 256) (rev (seq 0 width)).

Definition wire_bytes (o : ByteOrder) (width : nat) (v : Z) : list Z :=
  match o with
  | BigEndian => big_endian_bytes width v
  | LittleEndian => rev (big_endian_bytes width v)
  end.

(** The number whose digits in base 256, most significant first, are
    [bs]. *)
Definition big_endian_value (bs : list Z) : Z :=
  fold_left (fun acc b => acc * 256 + b) bs 0.

Definition wire_value (o : ByteOrder) (bs : list Z) : Z :=
  match o with
  | BigEndian => big_endian_value bs
  | LittleEndian => big_endian_value (rev bs)
  end.

(** A value of type byte. *)
Definition is_byte (b : Z) : Prop := 0 <= b < 256.

(** * Facts about the embedding *)

(** ** The byte orders: decoding what was encoded *)

Lemma byte_of_land (v : Z) : byte_of v = Z.land v (Z.ones 8).
Proof. unfold byte_of. rewrite Z.land_ones by lia. reflexivity. Qed.

Lemma shl_land (w x k : Z) :
  0 <= w -> shl w x k = Z.land (Z.shiftl x k) (Z.ones w).
Proof. intros. unfold shl. rewrite Z.land_ones by lia. reflexivity. Qed.

Lemma low_bits (w v : Z) : 0 <= w -> 0 <= v < 2 ^ w -> Z.land v (Z.ones w) = v.
Proof. intros. rewrite Z.land_ones by lia. apply Z.mod_small. lia. Qed.

Ltac codec :=
  cbn [Uint16 PutUint16 Uint32 PutUint32 Uint64 PutUint64 fill make replicate
       idx nth insert list_insert length take drop map app];
  rewrite !shl_land, !byte_of_land by lia; prove_Zeq_bitwise.

Lemma Uint16_PutUint16 (o : ByteOrder) (v : Z) :
  0 <= v < 2 ^ 16 ->
  Uint16 o (fill (make 2) (PutUint16 o (make 2) v)) = v.
Proof.
  intros Hv. rewrite <- (low_bits 16 v) at 2 by lia. destruct o; codec.
Qed.

Lemma Uint32_PutUint32 (o : ByteOrder) (v : Z) :
  0 <= v < 2 ^ 32 ->
  Uint32 o (fill (make 4) (PutUint32 o (make 4) v)) = v.
Proof.
  intros Hv. rewrite <- (low_bits 32 v) at 2 by lia. destruct o; codec.
Qed.

Lemma Uint64_PutUint64 (o : ByteOrder) (v : Z) :
  0 <= v < 2 ^ 64 ->
  Uint64 o (fill (make 8) (PutUint64 o (make 8) v)) = v.
Proof.
  intros Hv. rewrite <- (low_bits 64 v) at 2 by lia. destruct o; codec.
Qed.

Lemma length_PutUint16 (o : ByteOrder) (v : Z) :
  length (PutUint16 o (make 2) v) = 2%nat.
Proof. destruct o; reflexivity. Qed.

Lemma length_PutUint32 (o : ByteOrder) (v : Z) :
  length (PutUint32 o (make 4) v) = 4%nat.
Proof. destruct o; reflexivity. Qed.

Lemma length_PutUint64 (o : ByteOrder) (v : Z) :
  length (PutUint64 o (make 8) v) = 8%nat.
Proof. destruct o; reflexivity. Qed.

Lemma length_make (n : nat) : length (make n) = n.
Proof. apply length_replicate. Qed.

(** ** Running the methods *)

Ltac heap_step :=
  first
    [ rewrite list_lookup_insert_eq by (eapply lookup_lt_Some; eassumption)
    | rewrite list_insert_insert_eq
    | rewrite lookup_app_r by reflexivity
    | rewrite Nat.sub_diag ].

Ltac sim :=
  repeat first
    [ progress cbn [run bind defer call after exec on_conn on_world store
                    heap world fst snd app f mu endian set_f set_mu
                    error_of fmap option_fmap option_map]
    | progress unfold on_conn, on_world, store
    | heap_step
    | match goal with
      | H : ?x = _ |- context [match ?x with _ => _ end] => rewrite H
      | H : ?x = _ |- context [if ?x then _ else _] => rewrite H
      | H : ?x = _ |- context [let (_, _) := ?x in _] => rewrite H
      end ].


Section RunFacts.

Context {W : Type} (os : FileLayer W).

Lemma after_done {A X : Type} (x : X) (s : state W) (t : list event)
    (k : X -> state W -> result W A) :
  after (Done x, s, t) k =
  (fst (fst (k x s)), snd (fst (k x s)), t ++ snd (k x s)).
Proof. simpl. destruct (k x s) as [[o s'] t']. reflexivity. Qed.

Lemma after_ext {A X : Type} (r : result W X) (k1 k2 : X -> state W -> result W A) :
  (forall x s, k1 x s = k2 x s) -> after r k1 = after r k2.
Proof.
  intros E. destruct r as [[[x| | |] s] t]; simpl; try reflexivity.
  rewrite E. reflexivity.
Qed.

Lemma after_assoc {A X Y : Type} (r : result W X)
    (k : X -> state W -> result W Y) (g : Y -> state W -> result W A) :
  after (after r k) g = after r (fun x s => after (k x s) g).
Proof.
  destruct r as [[[x| | |] s] t]; simpl; try reflexivity.
  destruct (k x s) as [[[y| | |] s'] t']; simpl; try reflexivity.
  destruct (g y s') as [[o s''] t'']. rewrite app_assoc. reflexivity.
Qed.

Lemma run_bind {A B : Type} (p : prog A) (g : A -> prog B) (s : state W) :
  run os (bind p g) s = after (run os p s) (fun a => run os (g a)).
Proof.
  revert s. induction p as [a| |X c k IH]; intros s; simpl.
  - destruct (run os (g a) s) as [[o s'] t]. reflexivity.
  - reflexivity.
  - rewrite after_assoc. apply after_ext. intros x s'. apply IH.
Qed.


Lemma lookup_store (s : state W) (l : loc) (c c' : Conn) :
  heap s !! l = Some c -> heap (store s l c') !! l = Some c'.
Proof.
  intros H. unfold store; simpl.
  apply list_lookup_insert_eq. eapply lookup_lt_Some; eauto.
Qed.

Lemma store_store (s : state W) (l : loc) (c c' : Conn) :
  store (store s l c) l c' = store s l c'.
Proof. unfold store; simpl. by rewrite list_insert_insert_eq. Qed.

Lemma store_same (s : state W) (l : loc) (c : Conn) :
  heap s !! l = Some c -> store s l c = s.
Proof.
  intros H. destruct s as [h w]; unfold store; simpl in *.
  by rewrite list_insert_id.
Qed.

Lemma unlock_lock (c : Conn) : mu c = false -> set_mu false (set_mu true c) = c.
Proof. destruct c; simpl; intros ->; reflexivity. Qed.



Lemma run_ioctl_open (l : loc) (c : Conn) (fd : File) (req arg : Z) (s : state W) :
  heap s !! l = Some c -> f c = Some fd ->
  run os (ioctl (Some l) req arg) s =
  let '(r, w, t) := ioctl_fd os fd req arg (world s) in
  (Done r, mkState (heap s) w, t).
Proof.
  intros Hl Hf. unfold ioctl, ioctl_fd. sim.
  destruct (os_syscallconn os fd (world s)) as [[e|] w1] eqn:E1; sim; [done|].
  destruct (os_control os fd w1) as [[e|] w2] eqn:E2; sim; [done|].
  destruct (os_ioctl os fd req arg w2) as [eno w3] eqn:E3; sim.
  destruct (eno =? 0); reflexivity.
Qed.

Lemma run_Read (c : ptr) (data : list Z) (s : state W) :
  run os (Read c data) s =
  match c with
  | None => (Done (data, 0, Some ErrInvalid), s, [])
  | Some l =>
      match heap s !! l with
      | None => (Crashed, s, [])
      | Some cn =>
          if mu cn then (Blocked, s, [])
          else
            match f cn with
            | None => (Done (data, 0, Some ErrClosed), s, [EvLock l; EvUnlock l])
            | Some fd =>
                let '(got, n, e, w) := os_read os fd (length data) (world s) in
                (Done (fill data got, n, error_of e), mkState (heap s) w,
                 [EvLock l; EvRead fd (length data) got n e; EvUnlock l])
            end
      end
  end.
Proof.
  destruct c as [l|]; [|reflexivity].
  unfold Read. sim.
  destruct (heap s !! l) as [cn|] eqn:Hl; [|reflexivity].
  destruct (mu cn) eqn:Hmu; [reflexivity|]. sim.
  destruct (f cn) as [fd|] eqn:Hf; sim.
  - destruct (os_read os fd (length data) (world s)) as [[[got n] e] w] eqn:Hr.
    sim. rewrite unlock_lock, list_insert_id by done. reflexivity.
  - rewrite unlock_lock, list_insert_id by done. by destruct s.
Qed.

Lemma run_Write (c : ptr) (data : list Z) (s : state W) :
  run os (Write c data) s =
  match c with
  | None => (Done (0, Some ErrInvalid), s, [])
  | Some l =>
      match heap s !! l with
      | None => (Crashed, s, [])
      | Some cn =>
          if mu cn then (Blocked, s, [])
          else
            match f cn with
            | None => (Done (0, Some ErrClosed), s, [EvLock l; EvUnlock l])
            | Some fd =>
                let '(n, e, w) := os_write os fd data (world s) in
                (Done (n, error_of e), mkState (heap s) w,
                 [EvLock l; EvWrite fd data n e; EvUnlock l])
            end
      end
  end.
Proof.
  destruct c as [l|]; [|reflexivity].
  unfold Write. sim.
  destruct (heap s !! l) as [cn|] eqn:Hl; [|reflexivity].
  destruct (mu cn) eqn:Hmu; [reflexivity|]. sim.
  destruct (f cn) as [fd|] eqn:Hf; sim.
  - destruct (os_write os fd data (world s)) as [[n e] w] eqn:Hr.
    sim. rewrite unlock_lock, list_insert_id by done. reflexivity.
  - rewrite unlock_lock, list_insert_id by done. by destruct s.
Qed.

Lemma close_lock (c : Conn) :
  mu c = false -> set_mu false (set_f None (set_mu true c)) = set_f None c.
Proof. destruct c; simpl; intros ->; reflexivity. Qed.

Lemma run_Close (c : ptr) (s : state W) :
  run os (Close c) s =
  match c with
  | None => (Done (Some ErrInvalid), s, [])
  | Some l =>
      match heap s !! l with
      | None => (Crashed, s, [])
      | Some cn =>
          if mu cn then (Blocked, s, [])
          else
            match f cn with
            | None => (Done (Some ErrClosed), s, [EvLock l; EvUnlock l])
            | Some fd =>
                let '(r, w) := os_close os fd (world s) in
                (Done (error_of r),
                 mkState (<[l := set_f None cn]> (heap s)) w,
                 [EvLock l; EvClose fd r; EvUnlock l])
            end
      end
  end.
Proof.
  destruct c as [l|]; [|reflexivity].
  unfold Close. sim.
  destruct (heap s !! l) as [cn|] eqn:Hl; [|reflexivity].
  destruct (mu cn) eqn:Hmu; [reflexivity|]. sim.
  destruct (f cn) as [fd|] eqn:Hf; sim.
  - destruct (os_close os fd (world s)) as [r w] eqn:Hr.
    sim. rewrite close_lock by done. reflexivity.
  - rewrite unlock_lock, list_insert_id by done. by destruct s.
Qed.

Lemma run_ReadUint (width : nat) (dec : ByteOrder -> list Z -> Z)
    (c : ptr) (s : state W) :
  run os (ReadUint width dec c) s =
  match run os (Read c (make width)) s with
  | (Done (d, n, Some e), s', t) => (Done (0, Some e), s', t)
  | (Done (d, n, None), s', t) =>
      if negb (n =? Z.of_nat (length (make width)))
      then (Done (0, Some ErrTruncated), s', t)
      else
        match c with
        | None => (Panicked, s', t)
        | Some l =>
            match heap s' !! l with
            | None => (Crashed, s', t)
            | Some cn =>
                match endian cn with
                | None => (Panicked, s', t)
                | Some bo => (Done (dec bo d, None), s', t)
                end
            end
        end
  | (Panicked, s', t) => (Panicked, s', t)
  | (Blocked, s', t) => (Blocked, s', t)
  | (Crashed, s', t) => (Crashed, s', t)
  end.
Proof.
  unfold ReadUint. rewrite run_bind.
  destruct (run os (Read c (make width)) s) as [[[[[d n] [e|]]| | |] s'] t];
    cbn [after run]; rewrite ?app_nil_r; try reflexivity.
  destruct (negb (n =? Z.of_nat (length (make width))));
    cbn [run]; rewrite ?app_nil_r; try reflexivity.
  destruct c as [l|]; cbn [run]; rewrite ?app_nil_r; try reflexivity.
  unfold with_endian. sim.
  destruct (heap s' !! l) as [cn|]; sim; rewrite ?app_nil_r; try reflexivity.
  destruct (endian cn); cbn [run]; rewrite ?app_nil_r; reflexivity.
Qed.

Lemma run_WriteUint (width : nat) (enc : ByteOrder -> list Z -> Z -> list Z)
    (c : ptr) (val : Z) (s : state W) :
  run os (WriteUint width enc c val) s =
  match c with
  | None => (Done (Some ErrInvalid), s, [])
  | Some l =>
      match heap s !! l with
      | None => (Crashed, s, [])
      | Some cn =>
          match endian cn with
          | None => (Panicked, s, [])
          | Some bo =>
              match run os (Write c (enc bo (make width) val)) s with
              | (Done (n, Some e), s', t) => (Done (Some e), s', t)
              | (Done (n, None), s', t) =>
                  if negb (n =? Z.of_nat (length (enc bo (make width) val)))
                  then (Done (Some ErrTruncated), s', t)
                  else (Done None, s', t)
              | (Panicked, s', t) => (Panicked, s', t)
              | (Blocked, s', t) => (Blocked, s', t)
              | (Crashed, s', t) => (Crashed, s', t)
              end
          end
      end
  end.
Proof.
  destruct c as [l|]; [|reflexivity].
  unfold WriteUint, with_endian.
  cbn [bind call]. cbn [run]. cbn [exec]. unfold on_conn.
  destruct (heap s !! l) as [cn|]; [|reflexivity].
  cbn [after]. destruct (endian cn) as [bo|]; [|reflexivity].
  rewrite run_bind.
  destruct (run os (Write (Some l) (enc bo (make width) val)) s)
    as [[[[n [e|]]| | |] s'] t]; cbn [after run app]; rewrite ?app_nil_r;
    try reflexivity.
  destruct (negb _); cbn [run]; rewrite ?app_nil_r; reflexivity.
Qed.


Lemma run_NewConn (bus : string) (addr : Z) (tenBit : bool)
    (endian : option ByteOrder) (s : state W) :
  run os (NewConn bus addr tenBit endian) s =
  let '(r, w0) := os_open os bus (world s) in
  match r with
  | inr e => (Done (None, Some (OSError e)), mkState (heap s) w0, [EvOpen bus r])
  | inl fd =>
      let c0 := mkConn bus addr false (Some fd) None in
      let l := length (heap s) in
      let '(e1, w1, t1) := ioctl_fd os fd TENBIT (if tenBit then 1 else 0) w0 in
      let '(e2, w2, t2) :=
        match e1 with
        | None => ioctl_fd os fd SLAVE addr w1
        | Some _ => (e1, w1, [])
        end in
      match e2 with
      | None =>
          (Done (Some l, None), mkState (heap s ++ [c0]) w2,
           EvOpen bus r :: t1 ++ t2)
      | Some e =>
          let '(cr, w3) := os_close os fd w2 in
          (Done (None, Some e), mkState (heap s ++ [set_f None c0]) w3,
           EvOpen bus r :: t1 ++ t2 ++ [EvLock l; EvClose fd cr; EvUnlock l])
      end
  end.
Proof.
  unfold NewConn. rewrite run_bind. cbn [call run exec]. unfold on_world.
  destruct (os_open os bus (world s)) as [[fd|e] w0]; cbn [fst snd after run app];
    [|reflexivity].
  rewrite run_bind. cbn [call run exec after app heap world].
  set (c0 := mkConn bus addr false (Some fd) None).
  set (l := length (heap s)).
  assert (Hl : forall w : W, heap (mkState (heap s ++ [c0]) w) !! l = Some c0).
  { intros w. apply list_lookup_middle. reflexivity. }
  rewrite run_bind.
  replace (run os (if tenBit then ioctl (Some l) TENBIT 1
                   else ioctl (Some l) TENBIT 0)
             (mkState (heap s ++ [c0]) w0))
    with (let '(r, w, t) := ioctl_fd os fd TENBIT (if tenBit then 1 else 0) w0 in
          (Done r, mkState (heap s ++ [c0]) w, t))
    by (destruct tenBit; symmetry; apply (run_ioctl_open l c0 fd); auto).
  destruct (ioctl_fd os fd TENBIT (if tenBit then 1 else 0) w0) as [[e1 w1] t1].
  cbn [after]. rewrite run_bind.
  destruct e1 as [e|].
  - cbn [run after app]. rewrite run_bind, run_Close, Hl.
    cbn [mu f c0 heap world].
    destruct (os_close os fd w1) as [cr w3]. cbn [after run app].
    rewrite ?app_nil_r. do 3 f_equal.
    unfold l. rewrite insert_app_r_alt, Nat.sub_diag by lia. reflexivity.
  - rewrite (run_ioctl_open l c0 fd) by auto. cbn [world].
    destruct (ioctl_fd os fd SLAVE addr w1) as [[e2 w2] t2]. cbn [after].
    destruct e2 as [e|].
    + rewrite run_bind, run_Close, Hl. cbn [mu f c0 heap world].
      destruct (os_close os fd w2) as [cr w3]. cbn [after run app].
      rewrite ?app_nil_r. do 3 f_equal.
      unfold l. rewrite insert_app_r_alt, Nat.sub_diag by lia. reflexivity.
    + cbn [run]. rewrite app_nil_r. reflexivity.
Qed.

End RunFacts.

(** * The claims *)

Section NilConnection.

Context {W : Type} (os : FileLayer W).

(** C2. Every operation of the public interface, called on a nil
    connection, returns the invalid-connection error; it does so without
    touching anything: the state is the one it started from and no call
    is made to the file layer, so no handle is dereferenced and nothing
    panics. *)
Theorem nil_conn_is_invalid (data : list Z) (val : Z) (s : state W) :
  run os (Close None) s = (Done (Some ErrInvalid), s, []) /\
  run os (Read None data) s = (Done (data, 0, Some ErrInvalid), s, []) /\
  run os (Write None data) s = (Done (0, Some ErrInvalid), s, []) /\
  run os (ReadUint16 None) s = (Done (0, Some ErrInvalid), s, []) /\
  run os (ReadUint32 None) s = (Done (0, Some ErrInvalid), s, []) /\
  run os (ReadUint64 None) s = (Done (0, Some ErrInvalid), s, []) /\
  run os (WriteUint16 None val) s = (Done (Some ErrInvalid), s, []) /\
  run os (WriteUint32 None val) s = (Done (Some ErrInvalid), s, []) /\
  run os (WriteUint64 None val) s = (Done (Some ErrInvalid), s, []).
Proof. repeat split. Qed.

(** C5, as amended. Close on a nil connection returns the
    invalid-connection error (the closed error is for a connection whose
    handle is nil). *)
Theorem Close_nil_is_invalid (s : state W) :
  outcome_of (run os (Close None) s) = Done (Some ErrInvalid).
Proof. reflexivity. Qed.

End NilConnection.

(** C5, as stated, fails: Close on a nil connection does not return the
    closed error. *)
Lemma Close_nil_is_not_closed :
  outcome_of (run mock_os (Close None) (mkState [] loopback))
  <> Done (Some ErrClosed).
Proof. discriminate. Qed.

(** Closes a goal whose hypothesis puts an event in a trace that does not
    hold it. *)
Ltac no_event :=
  cbn [error_of fmap option_fmap option_map events_of outcome_of fst snd];
  intros;
  match goal with
  | H : In _ _ |- _ =>
      repeat (destruct H as [H|H]; [discriminate H|]); destruct H
  end.

Section Truncation.

Context {W : Type} (os : FileLayer W).

Lemma ReadUint_short (width : nat) (dec : ByteOrder -> list Z -> Z)
    (c : ptr) (s : state W) (fd : File) (len : nat) (got : list Z) (n : Z) :
  In (EvRead fd len got n None) (events_of (run os (ReadUint width dec c) s)) ->
  n <> Z.of_nat width ->
  outcome_of (run os (ReadUint width dec c) s) = Done (0, Some ErrTruncated).
Proof.
  rewrite run_ReadUint, run_Read, !length_make.
  destruct c as [l|]; [|no_event].
  destruct (heap s !! l) as [cn|]; [|no_event].
  destruct (mu cn); [no_event|].
  destruct (f cn) as [fd'|]; [|no_event].
  destruct (os_read os fd' width (world s)) as [[[got' n'] [e|]] w];
    [no_event|].
  cbn [error_of fmap option_fmap option_map heap].
  destruct (Z.eqb_spec n' (Z.of_nat width)) as [->|Hne]; cbn [negb];
    [|reflexivity].
  destruct (heap s !! l) as [c0|]; [destruct (endian c0)|];
    cbn [events_of snd]; intros [|[E|[|[]]]] Hn; try discriminate;
    injection E as E1 E2 E3 E4; congruence.
Qed.

Lemma WriteUint_short (width : nat) (enc : ByteOrder -> list Z -> Z -> list Z)
    (c : ptr) (val : Z) (s : state W) (fd : File) (data : list Z) (n : Z) :
  (forall o, length (enc o (make width) val) = width) ->
  In (EvWrite fd data n None)
     (events_of (run os (WriteUint width enc c val) s)) ->
  n <> Z.of_nat width ->
  outcome_of (run os (WriteUint width enc c val) s)
  = Done (Some ErrTruncated).
Proof.
  intros Hlen. rewrite run_WriteUint.
  destruct c as [l|]; [|no_event].
  destruct (heap s !! l) as [cn|] eqn:Hl; [|no_event].
  destruct (endian cn) as [bo|]; [|no_event].
  rewrite run_Write, Hl, Hlen.
  destruct (mu cn); [no_event|].
  destruct (f cn) as [fd'|]; [|no_event].
  destruct (os_write os fd' (enc bo (make width) val) (world s))
    as [[n' [e|]] w]; [no_event|].
  cbn [error_of fmap option_fmap option_map heap].
  destruct (Z.eqb_spec n' (Z.of_nat width)) as [->|Hne]; cbn [negb];
    [|reflexivity].
  cbn [events_of snd]; intros [|[E|[|[]]]] Hn; try discriminate;
    injection E as E1 E2 E3; congruence.
Qed.

(** C3. Whenever the read made by ReadUint16, ReadUint32 or ReadUint64
    succeeds with fewer than 2, 4 or 8 bytes, the call returns the
    truncated error (with value 0, never a decoded value with a nil
    error); whenever the write made by WriteUint16, WriteUint32 or
    WriteUint64 succeeds with fewer than 2, 4 or 8 bytes written, the
    call returns the truncated error. *)
Theorem short_transfer_is_truncated (c : ptr) (val : Z) (s : state W)
    (fd : File) (len : nat) (got data : list Z) (n : Z) :
  (In (EvRead fd len got n None) (events_of (run os (ReadUint16 c) s)) ->
   n < 2 ->
   outcome_of (run os (ReadUint16 c) s) = Done (0, Some ErrTruncated)) /\
  (In (EvRead fd len got n None) (events_of (run os (ReadUint32 c) s)) ->
   n < 4 ->
   outcome_of (run os (ReadUint32 c) s) = Done (0, Some ErrTruncated)) /\
  (In (EvRead fd len got n None) (events_of (run os (ReadUint64 c) s)) ->
   n < 8 ->
   outcome_of (run os (ReadUint64 c) s) = Done (0, Some ErrTruncated)) /\
  (In (EvWrite fd data n None) (events_of (run os (WriteUint16 c val) s)) ->
   n < 2 ->
   outcome_of (run os (WriteUint16 c val) s) = Done (Some ErrTruncated)) /\
  (In (EvWrite fd data n None) (events_of (run os (WriteUint32 c val) s)) ->
   n < 4 ->
   outcome_of (run os (WriteUint32 c val) s) = Done (Some ErrTruncated)) /\
  (In (EvWrite fd data n None) (events_of (run os (WriteUint64 c val) s)) ->
   n < 8 ->
   outcome_of (run os (WriteUint64 c val) s) = Done (Some ErrTruncated)).
Proof.
  repeat split; intros Hev Hn.
  - eapply ReadUint_short; [exact Hev|lia].
  - eapply ReadUint_short; [exact Hev|lia].
  - eapply ReadUint_short; [exact Hev|lia].
  - eapply WriteUint_short; [intros o; apply length_PutUint16|exact Hev|lia].
  - eapply WriteUint_short; [intros o; apply length_PutUint32|exact Hev|lia].
  - eapply WriteUint_short; [intros o; apply length_PutUint64|exact Hev|lia].
Qed.

End Truncation.

Lemma short_transfer_is_truncated_witness :
  let s := opened (Some BigEndian) short_device in
  let c := Some 0%nat in
  outcome_of (run mock_os (ReadUint16 c) s) = Done (0, Some ErrTruncated) /\
  outcome_of (run mock_os (ReadUint32 c) s) = Done (0, Some ErrTruncated) /\
  outcome_of (run mock_os (ReadUint64 c) s) = Done (0, Some ErrTruncated) /\
  outcome_of (run mock_os (WriteUint16 c 513) s) = Done (Some ErrTruncated) /\
  outcome_of (run mock_os (WriteUint32 c 513) s) = Done (Some ErrTruncated) /\
  outcome_of (run mock_os (WriteUint64 c 513) s) = Done (Some ErrTruncated).
Proof.
  intros s c.
  pose proof (short_transfer_is_truncated mock_os c 513 s 3%nat 2%nat [7] [2; 1] 1) as T2.
  pose proof (short_transfer_is_truncated mock_os c 513 s 3%nat 4%nat [7] [0; 0; 2; 1] 1) as T4.
  pose proof (short_transfer_is_truncated mock_os c 513 s 3%nat 8%nat [7]
                [0; 0; 0; 0; 0; 0; 2; 1] 1) as T8.
  destruct T2 as (R2 & _ & _ & W2 & _ & _).
  destruct T4 as (_ & R4 & _ & _ & W4 & _).
  destruct T8 as (_ & _ & R8 & _ & _ & W8).
  refine (conj _ (conj _ (conj _ (conj _ (conj _ _))))).
  - apply R2; [vm_compute; tauto | lia].
  - apply R4; [vm_compute; tauto | lia].
  - apply R8; [vm_compute; tauto | lia].
  - apply W2; [vm_compute; tauto | lia].
  - apply W4; [vm_compute; tauto | lia].
  - apply W8; [vm_compute; tauto | lia].
Defined.

Section RoundTrip.

Context {W : Type} (os : FileLayer W).

Lemma roundtrip (width : nat) (enc : ByteOrder -> list Z -> Z -> list Z)
    (dec : ByteOrder -> list Z -> Z)
    (l : loc) (c : Conn) (fd : File) (bo : ByteOrder) (v : Z) (s : state W) :
  heap s !! l = Some c -> mu c = false -> f c = Some fd ->
  endian c = Some bo -> echoes os fd (world s) ->
  length (enc bo (make width) v) = width ->
  outcome_of (run os (e <- WriteUint width enc (Some l) v ;;
                      r <- ReadUint width dec (Some l) ;;
                      Ret (e, r)) s)
  = Done (None, (dec bo (fill (make width) (enc bo (make width) v)), None)).
Proof.
  intros Hl Hmu Hf Hbo Hecho Hlen.
  destruct (Hecho (enc bo (make width) v)) as (w1 & w2 & Hwr & Hrd).
  rewrite Hlen in Hwr, Hrd.
  rewrite run_bind, run_WriteUint, Hl, Hbo, run_Write, Hl, Hmu, Hf, Hwr, Hlen.
  cbn [error_of fmap option_fmap option_map]. rewrite Z.eqb_refl.
  cbn [negb after]. rewrite run_bind, run_ReadUint, run_Read.
  cbn [heap world]. rewrite Hl, Hmu, Hf, !length_make, Hrd.
  cbn [error_of fmap option_fmap option_map heap]. rewrite Z.eqb_refl, Hl, Hbo.
  reflexivity.
Qed.

(** What holds of the helpers by themselves: on a connection whose
    [endian] field holds byte order [bo] (big- or little-endian) and whose
    file is a loopback device, writing a value of 2, 4 or 8 bytes with
    WriteUintN and reading it back with the matching ReadUintN succeeds
    and yields the value written.  No connection made by NewConn is such
    a connection: its [endian] field is nil. *)
Lemma write_then_read_roundtrip (l : loc) (c : Conn) (fd : File)
    (bo : ByteOrder) (v : Z) (s : state W) :
  heap s !! l = Some c -> mu c = false -> f c = Some fd ->
  endian c = Some bo -> echoes os fd (world s) ->
  (0 <= v < 2 ^ 16 ->
   outcome_of (run os (e <- WriteUint16 (Some l) v ;;
                       r <- ReadUint16 (Some l) ;;
                       Ret (e, r)) s) = Done (None, (v, None))) /\
  (0 <= v < 2 ^ 32 ->
   outcome_of (run os (e <- WriteUint32 (Some l) v ;;
                       r <- ReadUint32 (Some l) ;;
                       Ret (e, r)) s) = Done (None, (v, None))) /\
  (0 <= v < 2 ^ 64 ->
   outcome_of (run os (e <- WriteUint64 (Some l) v ;;
                       r <- ReadUint64 (Some l) ;;
                       Ret (e, r)) s) = Done (None, (v, None))).
Proof.
  intros Hl Hmu Hf Hbo Hecho.
  refine (conj _ (conj _ _)); intros Hv.
  - unfold WriteUint16, ReadUint16.
    rewrite (roundtrip 2 PutUint16 Uint16 l c fd bo v s)
      by auto using length_PutUint16.
    by rewrite Uint16_PutUint16.
  - unfold WriteUint32, ReadUint32.
    rewrite (roundtrip 4 PutUint32 Uint32 l c fd bo v s)
      by auto using length_PutUint32.
    by rewrite Uint32_PutUint32.
  - unfold WriteUint64, ReadUint64.
    rewrite (roundtrip 8 PutUint64 Uint64 l c fd bo v s)
      by auto using length_PutUint64.
    by rewrite Uint64_PutUint64.
Qed.

End RoundTrip.

Lemma loopback_echoes (fd : File) : echoes mock_os fd loopback.
Proof.
  intros data. eexists _, _. split; [reflexivity|].
  cbn. rewrite firstn_all. reflexivity.
Qed.

Lemma write_then_read_roundtrip_witness :
  let big := opened (Some BigEndian) loopback in
  let little := opened (Some LittleEndian) loopback in
  let c := Some 0%nat in
  outcome_of (run mock_os (e <- WriteUint16 c 0xBEEF ;;
                           r <- ReadUint16 c ;; Ret (e, r)) big)
  = Done (None, (0xBEEF, None)) /\
  outcome_of (run mock_os (e <- WriteUint32 c 0xDEADBEEF ;;
                           r <- ReadUint32 c ;; Ret (e, r)) little)
  = Done (None, (0xDEADBEEF, None)) /\
  outcome_of (run mock_os (e <- WriteUint64 c 0x0123456789ABCDEF ;;
                           r <- ReadUint64 c ;; Ret (e, r)) big)
  = Done (None, (0x0123456789ABCDEF, None)).
Proof.
  intros big little c.
  refine (conj _ (conj _ _)).
  - apply (write_then_read_roundtrip mock_os 0%nat
             (mkConn "/dev/i2c-1" 0x76 false (Some 3%nat) (Some BigEndian))
             3%nat BigEndian 0xBEEF big);
      first [reflexivity | apply loopback_echoes | lia].
  - apply (write_then_read_roundtrip mock_os 0%nat
             (mkConn "/dev/i2c-1" 0x76 false (Some 3%nat) (Some LittleEndian))
             3%nat LittleEndian 0xDEADBEEF little);
      first [reflexivity | apply loopback_echoes | lia].
  - apply (write_then_read_roundtrip mock_os 0%nat
             (mkConn "/dev/i2c-1" 0x76 false (Some 3%nat) (Some BigEndian))
             3%nat BigEndian 0x0123456789ABCDEF big);
      first [reflexivity | apply loopback_echoes | lia].
Defined.

Section Construction.

Context {W : Type} (os : FileLayer W).

Lemma config_failure_app (t1 t2 : list event) (e : error) :
  config_failure (t1 ++ t2) e <-> config_failure t1 e \/ config_failure t2 e.
Proof.
  unfold config_failure. setoid_rewrite in_app_iff. split.
  - intros [(fd & req & arg & eno & [H|H] & Hne & ->)
           |(fd & code & [H|H] & ->)]; eauto 12.
  - intros [[(fd & req & arg & eno & H & Hne & ->)|(fd & code & H & ->)]
           |[(fd & req & arg & eno & H & Hne & ->)|(fd & code & H & ->)]];
      eauto 12.
Qed.

Lemma config_failure_cons (ev : event) (t : list event) (e : error) :
  config_failure (ev :: t) e <-> config_failure [ev] e \/ config_failure t e.
Proof. apply (config_failure_app [ev] t). Qed.

Lemma config_failure_nil (e : error) : ~ config_failure [] e.
Proof. intros [(?&?&?&?&[]&_)|(?&?&[]&_)]. Qed.

(** The helper returns [Some e] exactly when one of its calls failed
    with [e]; it makes no other calls than its own. *)
Lemma ioctl_fd_result (fd : File) (req arg : Z) (w : W) :
  let '(r, _, t) := ioctl_fd os fd req arg w in
  (forall e, config_failure t e <-> r = Some e) /\ Forall is_config t.
Proof.
  unfold ioctl_fd.
  destruct (os_syscallconn os fd w) as [[code|] w1].
  { split; [|repeat constructor].
    intros e; split.
    - intros [(?&?&?&?&[|[]]&_)|(?&?&[H|[]]&->)]; try discriminate.
      by injection H as -> ->.
    - intros [= <-]. right. exists fd, code. split; [by left|done]. }
  destruct (os_control os fd w1) as [[code|] w2].
  { split; [|repeat constructor].
    intros e; split; [|discriminate].
    intros [(?&?&?&?&[|[|[]]]&_)|(?&?&[|[|[]]]&_)]; discriminate. }
  destruct (os_ioctl os fd req arg w2) as [eno w3].
  split; [|repeat constructor].
  intros e; split.
  - intros [(?&?&?&?&[|[|[H|[]]]]&Hne&->)|(?&?&[|[|[|[]]]]&_)];
      try discriminate.
    injection H as -> -> -> ->. apply Z.eqb_neq in Hne. by rewrite Hne.
  - destruct (Z.eqb_spec eno 0) as [->|Hne]; [discriminate|].
    intros [= <-]. left. exists fd, req, arg, eno.
    split; [right; right; by left|done].
Qed.

Lemma config_not_close (t : list event) (fd : File) (cr : option Z) :
  Forall is_config t -> ~ In (EvClose fd cr) t.
Proof.
  intros Hc Hin. rewrite List.Forall_forall in Hc. exact (Hc _ Hin).
Qed.

Lemma config_not_open (t : list event) (name : string) (r : File + Z) :
  Forall is_config t -> ~ In (EvOpen name r) t.
Proof.
  intros Hc Hin. rewrite List.Forall_forall in Hc. exact (Hc _ Hin).
Qed.

Lemma open_no_failure (name : string) (r : File + Z) (e : error) :
  ~ config_failure [EvOpen name r] e.
Proof. intros [(?&?&?&?&[|[]]&_)|(?&?&[|[]]&_)]; discriminate. Qed.

Lemma close_no_failure (l : loc) (fd : File) (cr : option Z) (e : error) :
  ~ config_failure [EvLock l; EvClose fd cr; EvUnlock l] e.
Proof.
  intros [(?&?&?&?&[|[|[|[]]]]&_)|(?&?&[|[|[|[]]]]&_)]; discriminate.
Qed.

(** C7. When NewConn has opened the file and a configuration call then
    fails, the file is closed before NewConn returns (its last call into
    the file layer, and the only close it makes), the error of the
    failing configuration call is returned, and the returned connection
    is nil; the [Conn] that was being set up is left without a handle. *)
Theorem NewConn_config_failure (bus : string) (addr : Z) (tenBit : bool)
    (endian : option ByteOrder) (s : state W) (fd : File) (e : error) :
  let r := run os (NewConn bus addr tenBit endian) s in
  let l := length (heap s) in
  In (EvOpen bus (inl fd)) (events_of r) ->
  config_failure (events_of r) e ->
  outcome_of r = Done (None, Some e) /\
  (exists t cr,
      events_of r = t ++ [EvLock l; EvClose fd cr; EvUnlock l] /\
      forall fd' cr', ~ In (EvClose fd' cr') t) /\
  heap (state_of r) !! l = Some (mkConn bus addr false None None).
Proof.
  intros r l. subst r. rewrite run_NewConn.
  destruct (os_open os bus (world s)) as [[fd0|e0] w0].
  2: { intros [|[]]; discriminate. }
  pose proof (ioctl_fd_result fd0 TENBIT (if tenBit then 1 else 0) w0) as R1.
  destruct (ioctl_fd os fd0 TENBIT (if tenBit then 1 else 0) w0)
    as [[e1 w1] t1].
  destruct R1 as [F1 C1].
  assert (exists e2 w2 t2,
             match e1 with
             | Some _ => (e1, w1, [])
             | None => ioctl_fd os fd0 SLAVE addr w1
             end = (e2, w2, t2) /\
             (forall e, config_failure (t1 ++ t2) e <-> e2 = Some e) /\
             Forall is_config (t1 ++ t2)) as (e2 & w2 & t2 & -> & F & C).
  { destruct e1 as [e1|].
    - eexists _, _, _. split; [reflexivity|]. by rewrite app_nil_r.
    - pose proof (ioctl_fd_result fd0 SLAVE addr w1) as R2.
      destruct (ioctl_fd os fd0 SLAVE addr w1) as [[e2 w2] t2].
      destruct R2 as [F2 C2].
      eexists _, _, _. split; [reflexivity|]. split.
      + intros e'. rewrite config_failure_app, F1, F2. split; [|by right].
        by intros [|].
      + by apply Forall_app. }
  assert (Hfd : forall t', In (EvOpen bus (inl fd))
                             (EvOpen bus (inl fd0) :: (t1 ++ t2) ++ t') ->
                           Forall is_config t' \/
                           (exists l cr, t' = [EvLock l; EvClose fd0 cr; EvUnlock l]) ->
                           fd = fd0).
  { intros t' [H|H] Ht'; [by injection H|].
    apply in_app_iff in H as [H|H]; [by apply config_not_open in H|].
    destruct Ht' as [Ht'|(l' & cr & ->)]; [by apply config_not_open in H|].
    destruct H as [|[|[|[]]]]; discriminate. }
  destruct e2 as [e2|].
  - destruct (os_close os fd0 w2) as [cr w3].
    cbn [events_of outcome_of state_of fst snd heap].
    rewrite app_assoc. intros Hin Hfail.
    apply Hfd in Hin as ->; [|right; eauto].
    apply config_failure_cons in Hfail as [Hfail|Hfail];
      [by apply open_no_failure in Hfail|].
    apply config_failure_app in Hfail as [Hfail|Hfail];
      [|by apply close_no_failure in Hfail].
    apply F in Hfail as [= ->].
    split; [reflexivity|]. split.
    + exists (EvOpen bus (inl fd0) :: t1 ++ t2), cr. split; [reflexivity|].
      intros fd' cr' [H|H]; [discriminate|]. by apply config_not_close in H.
    + by apply list_lookup_middle.
  - cbn [events_of outcome_of state_of fst snd heap].
    intros _ Hfail. exfalso.
    apply config_failure_cons in Hfail as [Hfail|Hfail];
      [by apply open_no_failure in Hfail|].
    by apply F in Hfail.
Qed.


Lemma NewConn_success (bus : string) (addr : Z) (tenBit : bool)
    (order : option ByteOrder) (s s' : state W) (l : loc)
    (e : option error) (t : list event) :
  run os (NewConn bus addr tenBit order) s = (Done (Some l, e), s', t) ->
  exists fd,
    heap s' !! l = Some (mkConn bus addr false (Some fd) None) /\ e = None.
Proof.
  rewrite run_NewConn.
  destruct (os_open os bus (world s)) as [[fd|e0] w0]; [|discriminate].
  destruct (ioctl_fd os fd TENBIT (if tenBit then 1 else 0) w0)
    as [[e1 w1] t1].
  destruct (match e1 with
            | Some _ => (e1, w1, [])
            | None => ioctl_fd os fd SLAVE addr w1
            end) as [[[e2|] w2] t2].
  - destruct (os_close os fd w2); discriminate.
  - intros [= <- <- <- <-]. exists fd. split; [|reflexivity].
    by apply list_lookup_middle.
Qed.

Lemma WriteUint_nil_endian (width : nat)
    (enc : ByteOrder -> list Z -> Z -> list Z)
    (l : loc) (c : Conn) (v : Z) (s : state W) :
  heap s !! l = Some c -> endian c = None ->
  run os (WriteUint width enc (Some l) v) s = (Panicked, s, []).
Proof. intros Hl Hbo. by rewrite run_WriteUint, Hl, Hbo. Qed.

Lemma ReadUint_nil_endian (width : nat) (dec : ByteOrder -> list Z -> Z)
    (l : loc) (c : Conn) (s : state W) :
  heap s !! l = Some c -> endian c = None ->
  (forall x, outcome_of (run os (ReadUint width dec (Some l)) s)
             <> Done (x, None)) /\
  (forall fd len got,
      In (EvRead fd len got (Z.of_nat width) None)
         (events_of (run os (ReadUint width dec (Some l)) s)) ->
      outcome_of (run os (ReadUint width dec (Some l)) s) = Panicked).
Proof.
  intros Hl Hbo. rewrite run_ReadUint, run_Read, Hl, !length_make.
  destruct (mu c); [split; [discriminate|no_event]|].
  destruct (f c) as [fd'|]; [|split; [discriminate|no_event]].
  destruct (os_read os fd' width (world s)) as [[[got' n'] [e|]] w];
    [split; [discriminate|no_event]|].
  cbn [error_of fmap option_fmap option_map heap]. rewrite Hl, Hbo.
  destruct (Z.eqb_spec n' (Z.of_nat width)) as [->|Hne]; cbn [negb].
  - split; [discriminate|reflexivity].
  - split; [discriminate|].
    cbn [events_of snd]. intros fd len got [|[E|[|[]]]]; try discriminate.
    injection E as E1 E2 E3 E4. congruence.
Qed.

(** C1, what the code does. Whatever byte order is passed to NewConn,
    the connection it returns holds none: the [endian] field is nil.
    On that connection WriteUint16, WriteUint32 and WriteUint64 panic;
    ReadUint16, ReadUint32 and ReadUint64 never return a decoded value,
    and panic whenever the read delivered the full 2, 4 or 8 bytes. *)
Theorem NewConn_drops_endian (bus : string) (addr : Z) (tenBit : bool)
    (order : option ByteOrder) (s s' : state W) (l : loc)
    (e : option error) (t : list event) :
  run os (NewConn bus addr tenBit order) s = (Done (Some l, e), s', t) ->
  (exists c, heap s' !! l = Some c /\ endian c = None) /\
  (forall v,
      outcome_of (run os (WriteUint16 (Some l) v) s') = Panicked /\
      outcome_of (run os (WriteUint32 (Some l) v) s') = Panicked /\
      outcome_of (run os (WriteUint64 (Some l) v) s') = Panicked) /\
  (forall x,
      outcome_of (run os (ReadUint16 (Some l)) s') <> Done (x, None) /\
      outcome_of (run os (ReadUint32 (Some l)) s') <> Done (x, None) /\
      outcome_of (run os (ReadUint64 (Some l)) s') <> Done (x, None)) /\
  (forall fd len got,
      (In (EvRead fd len got 2 None)
          (events_of (run os (ReadUint16 (Some l)) s')) ->
       outcome_of (run os (ReadUint16 (Some l)) s') = Panicked) /\
      (In (EvRead fd len got 4 None)
          (events_of (run os (ReadUint32 (Some l)) s')) ->
       outcome_of (run os (ReadUint32 (Some l)) s') = Panicked) /\
      (In (EvRead fd len got 8 None)
          (events_of (run os (ReadUint64 (Some l)) s')) ->
       outcome_of (run os (ReadUint64 (Some l)) s') = Panicked)).
Proof.
  intros Hnew. apply NewConn_success in Hnew as (fd0 & Hl & ->).
  set (c := mkConn bus addr false (Some fd0) None) in Hl.
  assert (Hbo : endian c = None) by reflexivity.
  split; [by exists c|]. split; [|split].
  - intros v. unfold WriteUint16, WriteUint32, WriteUint64.
    by rewrite !(WriteUint_nil_endian _ _ l c).
  - intros x. unfold ReadUint16, ReadUint32, ReadUint64.
    repeat split; by apply (ReadUint_nil_endian _ _ l c).
  - intros fd len got. unfold ReadUint16, ReadUint32, ReadUint64.
    repeat split; intros Hev.
    + by apply (proj2 (ReadUint_nil_endian 2 Uint16 l c s' Hl Hbo) fd len got).
    + by apply (proj2 (ReadUint_nil_endian 4 Uint32 l c s' Hl Hbo) fd len got).
    + by apply (proj2 (ReadUint_nil_endian 8 Uint64 l c s' Hl Hbo) fd len got).
Qed.

End Construction.

Lemma NewConn_config_failure_witness :
  let r := run mock_os (NewConn "/dev/i2c-1" 0x76 false (Some BigEndian))
               (mkState [] busy_device) in
  outcome_of r = Done (None, Some (Errno 16)) /\
  (exists t cr,
      events_of r = t ++ [EvLock 0%nat; EvClose 3%nat cr; EvUnlock 0%nat] /\
      forall fd' cr', ~ In (EvClose fd' cr') t) /\
  heap (state_of r) !! 0%nat = Some (mkConn "/dev/i2c-1" 0x76 false None None).
Proof.
  apply (NewConn_config_failure mock_os "/dev/i2c-1" 0x76 false
           (Some BigEndian) (mkState [] busy_device) 3%nat (Errno 16)).
  - vm_compute. tauto.
  - left. exists 3%nat, SLAVE, 0x76, 16. vm_compute.
    split; [tauto|]. split; [discriminate|reflexivity].
Defined.

Lemma NewConn_drops_endian_witness :
  let r := run mock_os (NewConn "/dev/i2c-1" 0x76 false (Some BigEndian))
               (mkState [] full_device) in
  outcome_of r = Done (Some 0%nat, None) /\
  outcome_of (run mock_os (WriteUint16 (Some 0%nat) 0x1234) (state_of r))
  = Panicked /\
  outcome_of (run mock_os (ReadUint16 (Some 0%nat)) (state_of r)) = Panicked.
Proof.
  intros r.
  destruct (NewConn_drops_endian mock_os "/dev/i2c-1" 0x76 false
              (Some BigEndian) (mkState [] full_device) (state_of r) 0%nat
              None (events_of r) eq_refl) as (_ & Hw & _ & Hr).
  split; [reflexivity|]. split.
  - destruct (Hw 0x1234) as (H16 & _ & _). exact H16.
  - destruct (Hr 3%nat 2%nat [1; 2]) as (H16 & _ & _).
    apply H16. vm_compute. tauto.
Defined.

Section Lifecycle.

Context {W : Type} (os : FileLayer W).

(** Closing an open connection: the file is closed once, under the
    mutex; the handle becomes nil whether or not the close failed, and
    the result of the close is what Close returns. *)
Lemma Close_open (l : loc) (c : Conn) (fd : File) (s : state W) :
  heap s !! l = Some c -> mu c = false -> f c = Some fd ->
  exists cr w,
    os_close os fd (world s) = (cr, w) /\
    run os (Close (Some l)) s =
      (Done (error_of cr), mkState (<[l := set_f None c]> (heap s)) w,
       [EvLock l; EvClose fd cr; EvUnlock l]).
Proof.
  intros Hl Hmu Hf. rewrite run_Close, Hl, Hmu, Hf.
  destruct (os_close os fd (world s)) as [cr w]. by exists cr, w.
Qed.

(** On a connection whose handle is nil, Read, Write, Close and the
    ReadUintN return the closed error; they change nothing and make no
    call into the file layer, so the connection stays closed and its
    file is not closed again.  The WriteUintN do the same when the
    connection holds a byte order, and panic when it holds none. *)
Lemma closed_conn_stays_closed (l : loc) (c : Conn) (data : list Z) (v : Z)
    (s : state W) :
  heap s !! l = Some c -> mu c = false -> f c = None ->
  let quiet := [EvLock l; EvUnlock l] in
  run os (Close (Some l)) s = (Done (Some ErrClosed), s, quiet) /\
  run os (Read (Some l) data) s = (Done (data, 0, Some ErrClosed), s, quiet) /\
  run os (Write (Some l) data) s = (Done (0, Some ErrClosed), s, quiet) /\
  run os (ReadUint16 (Some l)) s = (Done (0, Some ErrClosed), s, quiet) /\
  run os (ReadUint32 (Some l)) s = (Done (0, Some ErrClosed), s, quiet) /\
  run os (ReadUint64 (Some l)) s = (Done (0, Some ErrClosed), s, quiet) /\
  (is_Some (endian c) ->
   run os (WriteUint16 (Some l) v) s = (Done (Some ErrClosed), s, quiet) /\
   run os (WriteUint32 (Some l) v) s = (Done (Some ErrClosed), s, quiet) /\
   run os (WriteUint64 (Some l) v) s = (Done (Some ErrClosed), s, quiet)) /\
  (endian c = None ->
   run os (WriteUint16 (Some l) v) s = (Panicked, s, []) /\
   run os (WriteUint32 (Some l) v) s = (Panicked, s, []) /\
   run os (WriteUint64 (Some l) v) s = (Panicked, s, [])).
Proof.
  intros Hl Hmu Hf quiet.
  unfold ReadUint16, ReadUint32, ReadUint64, WriteUint16, WriteUint32,
    WriteUint64.
  rewrite !run_ReadUint, !run_WriteUint, run_Close, !run_Read, run_Write,
    !Hl, Hmu, Hf.
  do 6 (split; [reflexivity|]). split.
  - intros [bo ->]. by rewrite !run_Write, Hl, Hmu, Hf.
  - by intros ->.
Qed.

(** C4, what the code does. On a connection made by NewConn and then
    closed successfully, WriteUint16, WriteUint32 and WriteUint64 panic
    (the connection holds no byte order, and the byte order is used
    before the handle is looked at); the other operations return the
    closed error, see [closed_conn_stays_closed]. *)
Theorem closed_WriteUint_panics (bus : string) (addr : Z) (tenBit : bool)
    (order : option ByteOrder) (s s1 s2 : state W) (l : loc)
    (e : option error) (t1 t2 : list event) (v : Z) :
  run os (NewConn bus addr tenBit order) s = (Done (Some l, e), s1, t1) ->
  run os (Close (Some l)) s1 = (Done None, s2, t2) ->
  (exists c, heap s2 !! l = Some c /\ f c = None) /\
  outcome_of (run os (WriteUint16 (Some l) v) s2) = Panicked /\
  outcome_of (run os (WriteUint32 (Some l) v) s2) = Panicked /\
  outcome_of (run os (WriteUint64 (Some l) v) s2) = Panicked.
Proof.
  intros Hnew Hclose. apply NewConn_success in Hnew as (fd & Hl & ->).
  destruct (Close_open l _ fd s1 Hl eq_refl eq_refl) as (cr & w & _ & E).
  rewrite E in Hclose. injection Hclose as _ <- _.
  set (c := set_f None (mkConn bus addr false (Some fd) None)).
  assert (Hl2 : heap (mkState (<[l := c]> (heap s1)) w) !! l = Some c).
  { cbn [heap]. apply list_lookup_insert_eq. by eapply lookup_lt_Some. }
  split; [by exists c|].
  unfold WriteUint16, WriteUint32, WriteUint64.
  by rewrite !(WriteUint_nil_endian os _ _ l c).
Qed.

(** C10, what the code does. On a connection made by NewConn, when
    closing the file fails Close returns that error and the handle is
    nil all the same; afterwards WriteUint16, WriteUint32 and WriteUint64
    panic, while the other operations return the closed error (see
    [closed_conn_stays_closed]). *)
Theorem failed_Close_then_WriteUint_panics (bus : string) (addr : Z)
    (tenBit : bool) (order : option ByteOrder) (s s1 s2 : state W)
    (l : loc) (e : option error) (err : error) (t1 t2 : list event)
    (v : Z) :
  run os (NewConn bus addr tenBit order) s = (Done (Some l, e), s1, t1) ->
  run os (Close (Some l)) s1 = (Done (Some err), s2, t2) ->
  (exists fd code,
      err = OSError code /\
      t2 = [EvLock l; EvClose fd (Some code); EvUnlock l]) /\
  (exists c, heap s2 !! l = Some c /\ f c = None) /\
  outcome_of (run os (WriteUint16 (Some l) v) s2) = Panicked /\
  outcome_of (run os (WriteUint32 (Some l) v) s2) = Panicked /\
  outcome_of (run os (WriteUint64 (Some l) v) s2) = Panicked.
Proof.
  intros Hnew Hclose. apply NewConn_success in Hnew as (fd & Hl & ->).
  destruct (Close_open l _ fd s1 Hl eq_refl eq_refl) as (cr & w & _ & E).
  rewrite E in Hclose. injection Hclose as Hcr <- <-.
  destruct cr as [code|]; [|discriminate]. injection Hcr as <-.
  set (c := set_f None (mkConn bus addr false (Some fd) None)).
  assert (Hl2 : heap (mkState (<[l := c]> (heap s1)) w) !! l = Some c).
  { cbn [heap]. apply list_lookup_insert_eq. by eapply lookup_lt_Some. }
  split; [by exists fd, code|]. split; [by exists c|].
  unfold WriteUint16, WriteUint32, WriteUint64.
  by rewrite !(WriteUint_nil_endian os _ _ l c).
Qed.

(** The sound part of C10: on any open connection, a failing close of
    the file is reported by Close and still leaves the handle nil. *)
Lemma Close_failure_still_closes (l : loc) (c : Conn) (fd : File) (code : Z)
    (w : W) (s : state W) :
  heap s !! l = Some c -> mu c = false -> f c = Some fd ->
  os_close os fd (world s) = (Some code, w) ->
  outcome_of (run os (Close (Some l)) s) = Done (Some (OSError code)) /\
  heap (state_of (run os (Close (Some l)) s)) !! l = Some (set_f None c).
Proof.
  intros Hl Hmu Hf Hc. rewrite run_Close, Hl, Hmu, Hf, Hc.
  split; [reflexivity|]. cbn [state_of fst snd heap].
  apply list_lookup_insert_eq. by eapply lookup_lt_Some.
Qed.

(** C8, what the code does. When [Control] returns an error (so that the
    ioctl is never made) and no other call of NewConn fails, NewConn
    reports success: it returns a connection and a nil error. *)
Theorem NewConn_swallows_Control_error (bus : string) (addr : Z)
    (tenBit : bool) (order : option ByteOrder) (s : state W)
    (fd : File) (code : Z) :
  let r := run os (NewConn bus addr tenBit order) s in
  In (EvControl fd (Some code)) (events_of r) ->
  (forall e, ~ config_failure (events_of r) e) ->
  outcome_of r = Done (Some (length (heap s)), None).
Proof.
  intros r. subst r. rewrite run_NewConn.
  destruct (os_open os bus (world s)) as [[fd0|e0] w0].
  2: { intros [|[]]; discriminate. }
  pose proof (ioctl_fd_result os fd0 TENBIT (if tenBit then 1 else 0) w0) as R1.
  destruct (ioctl_fd os fd0 TENBIT (if tenBit then 1 else 0) w0)
    as [[e1 w1] t1].
  destruct R1 as [F1 _]. intros _.
  destruct e1 as [e1|].
  { destruct (os_close os fd0 w1) as [cr w3]. cbn [events_of snd].
    intros Hno. exfalso. apply (Hno e1).
    apply config_failure_cons. right. apply config_failure_app. left.
    by apply F1. }
  pose proof (ioctl_fd_result os fd0 SLAVE addr w1) as R2.
  destruct (ioctl_fd os fd0 SLAVE addr w1) as [[e2 w2] t2].
  destruct R2 as [F2 _].
  destruct e2 as [e2|]; [|reflexivity].
  destruct (os_close os fd0 w2) as [cr w3]. cbn [events_of snd].
  intros Hno. exfalso. apply (Hno e2).
  apply config_failure_cons. right. apply config_failure_app. right.
  apply config_failure_app. left. by apply F2.
Qed.

(** C6, what the code does. On a connection made by NewConn, whatever
    byte order was passed to it and whatever the device, writing a value
    with WriteUint16, WriteUint32 or WriteUint64 and reading it back with
    the matching ReadUintN yields no value: the write panics (the
    connection holds no byte order), before anything reaches the
    device. *)
Theorem roundtrip_panics_after_NewConn (bus : string) (addr : Z)
    (tenBit : bool) (order : option ByteOrder) (s s1 : state W) (l : loc)
    (e : option error) (t1 : list event) (v : Z) :
  run os (NewConn bus addr tenBit order) s = (Done (Some l, e), s1, t1) ->
  run os (e <- WriteUint16 (Some l) v ;;
          r <- ReadUint16 (Some l) ;; Ret (e, r)) s1 = (Panicked, s1, []) /\
  run os (e <- WriteUint32 (Some l) v ;;
          r <- ReadUint32 (Some l) ;; Ret (e, r)) s1 = (Panicked, s1, []) /\
  run os (e <- WriteUint64 (Some l) v ;;
          r <- ReadUint64 (Some l) ;; Ret (e, r)) s1 = (Panicked, s1, []).
Proof.
  intros Hnew. apply NewConn_success in Hnew as (fd & Hl & ->).
  unfold WriteUint16, WriteUint32, WriteUint64.
  rewrite !run_bind, !(WriteUint_nil_endian os _ _ l _ v s1 Hl eq_refl).
  done.
Qed.

End Lifecycle.

Lemma closed_WriteUint_panics_witness :
  let r1 := run mock_os (NewConn "/dev/i2c-1" 0x76 false (Some BigEndian))
                (mkState [] loopback) in
  let r2 := run mock_os (Close (Some 0%nat)) (state_of r1) in
  outcome_of r1 = Done (Some 0%nat, None) /\
  outcome_of r2 = Done None /\
  outcome_of (run mock_os (WriteUint16 (Some 0%nat) 0x1234) (state_of r2))
  = Panicked.
Proof.
  intros r1 r2.
  split; [reflexivity|]. split; [reflexivity|].
  apply (closed_WriteUint_panics mock_os "/dev/i2c-1" 0x76 false
           (Some BigEndian) (mkState [] loopback) (state_of r1) (state_of r2)
           0%nat None (events_of r1) (events_of r2) 0x1234);
    reflexivity.
Defined.

Lemma failed_Close_then_WriteUint_panics_witness :
  let r1 := run mock_os (NewConn "/dev/i2c-1" 0x76 false (Some BigEndian))
                (mkState [] stale_device) in
  let r2 := run mock_os (Close (Some 0%nat)) (state_of r1) in
  outcome_of r1 = Done (Some 0%nat, None) /\
  outcome_of r2 = Done (Some (OSError 5)) /\
  outcome_of (run mock_os (WriteUint16 (Some 0%nat) 0x1234) (state_of r2))
  = Panicked.
Proof.
  intros r1 r2.
  split; [reflexivity|]. split; [reflexivity|].
  apply (failed_Close_then_WriteUint_panics mock_os "/dev/i2c-1" 0x76 false
           (Some BigEndian) (mkState [] stale_device) (state_of r1)
           (state_of r2) 0%nat None (OSError 5) (events_of r1) (events_of r2)
           0x1234);
    reflexivity.
Defined.

Lemma NewConn_swallows_Control_error_witness :
  let r := run mock_os (NewConn "/dev/i2c-1" 0x76 false (Some BigEndian))
               (mkState [] deaf_device) in
  In (EvControl 3%nat (Some 9)) (events_of r) /\
  (forall fd req arg eno, ~ In (EvIoctl fd req arg eno) (events_of r)) /\
  outcome_of r = Done (Some 0%nat, None).
Proof.
  intros r.
  assert (Hev : events_of r =
                [EvOpen "/dev/i2c-1" (inl 3%nat);
                 EvSyscallConn 3%nat None; EvControl 3%nat (Some 9);
                 EvSyscallConn 3%nat None; EvControl 3%nat (Some 9)])
    by reflexivity.
  split; [rewrite Hev; simpl; tauto|]. split.
  - rewrite Hev. intros fd req arg eno [|[|[|[|[|[]]]]]]; discriminate.
  - apply (NewConn_swallows_Control_error mock_os "/dev/i2c-1" 0x76 false
             (Some BigEndian) (mkState [] deaf_device) 3%nat 9).
    + fold r. rewrite Hev. simpl. tauto.
    + fold r. rewrite Hev.
      intros e [(?&?&?&?&[|[|[|[|[|[]]]]]]&_)|(?&?&[|[|[|[|[|[]]]]]]&_)];
        discriminate.
Defined.

Lemma roundtrip_panics_after_NewConn_witness :
  let r1 := run mock_os (NewConn "/dev/i2c-1" 0x76 false (Some BigEndian))
                (mkState [] loopback) in
  let c := Some 0%nat in
  outcome_of r1 = Done (c, None) /\
  outcome_of (run mock_os (e <- WriteUint16 c 0xBEEF ;;
                           r <- ReadUint16 c ;; Ret (e, r)) (state_of r1))
  = Panicked /\
  outcome_of (run mock_os (e <- WriteUint32 c 0xDEADBEEF ;;
                           r <- ReadUint32 c ;; Ret (e, r)) (state_of r1))
  = Panicked /\
  outcome_of (run mock_os (e <- WriteUint64 c 0x0123456789ABCDEF ;;
                           r <- ReadUint64 c ;; Ret (e, r)) (state_of r1))
  = Panicked.
Proof.
  intros r1 c. split; [reflexivity|].
  pose proof (fun v => roundtrip_panics_after_NewConn mock_os "/dev/i2c-1" 0x76
                false (Some BigEndian) (mkState [] loopback) (state_of r1)
                0%nat None (events_of r1) v eq_refl) as T.
  destruct (T 0xBEEF) as (H16 & _ & _).
  destruct (T 0xDEADBEEF) as (_ & H32 & _).
  destruct (T 0x0123456789ABCDEF) as (_ & _ & H64).
  unfold c. rewrite H16, H32, H64. done.
Defined.

Section Concurrency.

Context {W : Type} (os : FileLayer W) (l : loc).

Lemma brackets_bind {A B : Type} (p : prog A) (g : A -> prog B) (h h' h'' : bool) :
  brackets l h h' p -> (forall a, brackets l h' h'' (g a)) ->
  brackets l h h'' (bind p g).
Proof.
  intros Hp Hg. revert h Hp.
  induction p as [a| |X c k IH]; intros h Hp; cbn [bind brackets] in *.
  - subst h'. apply Hg.
  - destruct Hp.
  - destruct (action_of l c); try destruct Hp as [-> Hp]; try split; auto.
Qed.

Lemma brackets_defer {A : Type} (d : prog unit) (body : prog A) (h h1 h2 : bool) :
  brackets l h h1 body -> brackets l h1 h2 d ->
  brackets l h h2 (defer d body).
Proof.
  intros Hb Hd. revert h Hb.
  induction body as [a| |X c k IH]; intros h Hb; cbn [defer brackets] in *.
  - subst h1. eapply brackets_bind; [exact Hd|]. intros _. reflexivity.
  - destruct Hb.
  - destruct (action_of l c); try destruct Hb as [-> Hb]; try split; auto.
Qed.

Lemma brackets_unlock : brackets l true false (call (Unlock l)).
Proof. cbn. rewrite Nat.eqb_refl. split; [reflexivity|]. by intros []. Qed.

Lemma brackets_locked {A : Type} (body : prog A) :
  brackets l true true body ->
  brackets l false false (call (Lock l) ;; defer (call (Unlock l)) body).
Proof.
  intros Hb. cbn [call bind brackets action_of]. rewrite Nat.eqb_refl.
  split; [reflexivity|]. intros _.
  eapply brackets_defer; [exact Hb|apply brackets_unlock].
Qed.

(** Read, Write and Close take the mutex first, release it last, and
    touch the handle only in between. *)
Lemma methods_bracket (data : list Z) :
  brackets l false false (Read (Some l) data) /\
  brackets l false false (Write (Some l) data) /\
  brackets l false false (Close (Some l)).
Proof.
  unfold Read, Write, Close.
  repeat split; apply brackets_locked; cbn [call bind brackets action_of];
    rewrite Nat.eqb_refl; (split; [reflexivity|]); intros [fd|];
    cbn [call bind brackets action_of]; try reflexivity.
  - split; [reflexivity|]. by intros [[? ?] ?].
  - split; [reflexivity|]. by intros [? ?].
  - split; [reflexivity|]. intros cr. cbn. rewrite Nat.eqb_refl.
    split; [reflexivity|]. by intros [].
Qed.

Lemma goroutine_brackets (calls : list method) :
  brackets l false false (goroutine (Some l) calls).
Proof.
  induction calls as [|m rest IH]; [reflexivity|].
  cbn [goroutine]. eapply brackets_bind; [|intros _; exact IH].
  destruct (methods_bracket match m with
                            | CallRead d | CallWrite d => d
                            | CallClose => []
                            end) as (HR & HW & HC).
  destruct m; cbn [perform];
    (eapply brackets_bind; [eassumption|intros _; reflexivity]).
Qed.


Lemma exec_keeps_mutex {X : Type} (c : cmd X) (s s' : state W) (x : X)
    (t : list event) (c0 : Conn) :
  action_of l c = AAccess \/ action_of l c = AOther ->
  heap s !! l = Some c0 ->
  exec os c s = (Done x, s', t) ->
  exists c1, heap s' !! l = Some c1 /\ mu c1 = mu c0.
Proof.
  intros Hact Hl.
  destruct c; cbn [exec action_of] in *; unfold on_world, on_conn, store.
  - intros [= _ <- _]. eauto.
  - intros [= _ <- _]. eauto.
  - intros [= _ <- _]. eauto.
  - intros [= _ <- _]. eauto.
  - intros [= _ <- _]. eauto.
  - destruct (os_read _ _ _ _) as [[[? ?] ?] ?]. intros [= _ <- _]. eauto.
  - destruct (os_write _ _ _ _) as [[? ?] ?]. intros [= _ <- _]. eauto.
  - intros [= _ <- _]. cbn [heap]. exists c0. split; [|done].
    apply lookup_app_l_Some. done.
  - destruct (heap s !! l0); [|discriminate]. intros [= _ <- _]. eauto.
  - destruct (heap s !! l0) as [c1|] eqn:Hl0; [|discriminate].
    intros [= _ <- _]. cbn [heap].
    destruct (Nat.eqb_spec l0 l) as [->|Hne].
    + exists (set_f v c1). rewrite list_lookup_insert_eq
        by (by eapply lookup_lt_Some). split; [done|]. 
      rewrite Hl in Hl0. by injection Hl0 as ->.
    + exists c0. by rewrite list_lookup_insert_ne.
  - destruct (heap s !! l0); [|discriminate]. intros [= _ <- _]. eauto.
  - destruct (Nat.eqb_spec l0 l) as [->|Hne];
      [by destruct Hact|].
    destruct (heap s !! l0) as [c1|]; [|discriminate].
    destruct (mu c1); [discriminate|]. intros [= _ <- _]. cbn [heap].
    exists c0. by rewrite list_lookup_insert_ne.
  - destruct (Nat.eqb_spec l0 l) as [->|Hne];
      [by destruct Hact|].
    destruct (heap s !! l0) as [c1|]; [|discriminate].
    destruct (mu c1); [|discriminate]. intros [= _ <- _]. cbn [heap].
    exists c0. by rewrite list_lookup_insert_ne.
Qed.

Lemma exec_lock {X : Type} (c : cmd X) (s s' : state W) (x : X)
    (t : list event) (c0 : Conn) :
  action_of l c = ALock ->
  heap s !! l = Some c0 ->
  exec os c s = (Done x, s', t) ->
  mu c0 = false /\ heap s' !! l = Some (set_mu true c0).
Proof.
  intros Hact Hl.
  destruct c; cbn [action_of] in Hact; try discriminate;
    destruct (Nat.eqb_spec l0 l) as [->|]; try discriminate.
  cbn [exec]. unfold on_conn. rewrite Hl.
  destruct (mu c0); [discriminate|]. intros [= _ <- _].
  split; [reflexivity|]. cbn [store heap].
  apply list_lookup_insert_eq. by eapply lookup_lt_Some.
Qed.

Lemma exec_unlock {X : Type} (c : cmd X) (s s' : state W) (x : X)
    (t : list event) (c0 : Conn) :
  action_of l c = AUnlock ->
  heap s !! l = Some c0 ->
  exec os c s = (Done x, s', t) ->
  heap s' !! l = Some (set_mu false c0).
Proof.
  intros Hact Hl.
  destruct c; cbn [action_of] in Hact; try discriminate;
    destruct (Nat.eqb_spec l0 l) as [->|]; try discriminate.
  cbn [exec]. unfold on_conn. rewrite Hl.
  destruct (mu c0); [|discriminate]. intros [= _ <- _].
  cbn [store heap]. apply list_lookup_insert_eq. by eapply lookup_lt_Some.
Qed.

Lemma pool_update (pool : list (prog unit)) (owner owner' : option nat)
    (i : nat) (q q' : prog unit) :
  (forall j p, pool !! j = Some p -> brackets l (holder owner j) false p) ->
  pool !! i = Some q ->
  brackets l (holder owner' i) false q' ->
  (forall j, j <> i -> holder owner' j = holder owner j) ->
  forall j p, <[i := q']> pool !! j = Some p ->
              brackets l (holder owner' j) false p.
Proof.
  intros Hpool Hi Hq' Hsame j p.
  destruct (Nat.eq_dec j i) as [->|Hne].
  - rewrite list_lookup_insert_eq by (by eapply lookup_lt_Some).
    by intros [= <-].
  - rewrite list_lookup_insert_ne by done. rewrite Hsame by done.
    apply Hpool.
Qed.

Lemma holder_true (owner : option nat) (i : nat) :
  holder owner i = true -> owner = Some i.
Proof.
  destruct owner as [j|]; [|discriminate]. cbn.
  intros H. apply Nat.eqb_eq in H. by subst.
Qed.

(** One turn of a goroutine keeps the invariant, and what it does is
    allowed to it by who holds the mutex. *)
Lemma gstep_follow (owner : option nat) (cfg cfg' : state W * list (prog unit))
    (i : nat) (step : nat * action) :
  mutex_inv l owner cfg -> gstep os l i cfg = Some (step, cfg') ->
  exists owner', follow owner step = Some owner' /\ mutex_inv l owner' cfg'.
Proof.
  destruct cfg as [s pool]. intros [(c0 & Hl & Hmu) Hpool].
  unfold gstep. cbn [fst snd] in *.
  destruct (pool !! i) as [[a| |X c k]|] eqn:Hi; try discriminate.
  destruct (exec os c s) as [[[x| | |] s'] t] eqn:Hex; try discriminate.
  intros [= <- <-].
  pose proof (Hpool i _ Hi) as Hb. cbn [brackets] in Hb.
  destruct (action_of l c) eqn:Hact.
  - (* the mutex is taken *)
    destruct Hb as [Hh Hk].
    destruct (exec_lock c s s' x t c0 Hact Hl Hex) as [Hfree Hl'].
    assert (owner = None) as ->.
    { rewrite Hfree in Hmu. by destruct owner. }
    exists (Some i). split; [reflexivity|]. split.
    + exists (set_mu true c0). by split.
    + cbn [snd]. eapply pool_update; eauto.
      * cbn. rewrite Nat.eqb_refl. apply Hk.
      * intros j Hne. cbn. by apply Nat.eqb_neq.
  - (* the mutex is released *)
    destruct Hb as [Hh Hk]. apply holder_true in Hh as ->.
    exists None. split; [cbn; by rewrite Nat.eqb_refl|]. split.
    + pose proof (exec_unlock c s s' x t c0 Hact Hl Hex) as Hl'.
      exists (set_mu false c0). by split.
    + cbn [snd]. eapply pool_update; eauto.
      intros j Hne. cbn. symmetry. by apply Nat.eqb_neq.
  - (* the handle is accessed *)
    destruct Hb as [Hh Hk]. apply holder_true in Hh as ->.
    exists (Some i). split; [cbn; by rewrite Nat.eqb_refl|]. split.
    + destruct (exec_keeps_mutex c s s' x t c0 (or_introl Hact) Hl Hex)
        as (c1 & Hl' & Hmu').
      exists c1. split; [done|]. by rewrite Hmu'.
    + cbn [snd]. eapply pool_update; eauto.
      cbn. rewrite Nat.eqb_refl. apply Hk.
  - (* something else *)
    exists owner. split; [reflexivity|]. split.
    + destruct (exec_keeps_mutex c s s' x t c0 (or_intror Hact) Hl Hex)
        as (c1 & Hl' & Hmu').
      exists c1. split; [done|]. by rewrite Hmu'.
    + cbn [snd]. eapply pool_update; eauto.
Qed.

Lemma interleave_serialized (sched : list nat) (owner : option nat)
    (cfg : state W * list (prog unit)) :
  mutex_inv l owner cfg ->
  serialized owner (fst (interleave os l sched cfg)) = true.
Proof.
  revert owner cfg. induction sched as [|i rest IH]; intros owner cfg Hinv;
    [reflexivity|].
  cbn [interleave].
  destruct (gstep os l i cfg) as [[step cfg']|] eqn:Hstep; [|by apply IH].
  destruct (gstep_follow _ _ _ _ _ Hinv Hstep) as (owner' & Hf & Hinv').
  specialize (IH owner' cfg' Hinv').
  destruct (interleave os l rest cfg') as [tr cfg''].
  cbn [fst serialized] in *. by rewrite Hf.
Qed.

(** Read, Write and Close on a non-nil connection hold its mutex for
    their whole duration: taking it is the first thing they do, the
    release is the last, and all they do to the handle falls between. *)
Lemma methods_hold_mutex (data : list Z) :
  holds_mutex_throughout l (Read (Some l) data) /\
  holds_mutex_throughout l (Write (Some l) data) /\
  holds_mutex_throughout l (Close (Some l)).
Proof.
  unfold Read, Write, Close.
  refine (conj _ (conj _ _));
    cbn [call bind defer holds_mutex_throughout under_mutex action_of];
    rewrite Nat.eqb_refl; (split; [reflexivity|]); intros _ [fd|];
    cbn [call bind defer under_mutex action_of]; rewrite ?Nat.eqb_refl;
    eauto.
  - intros [[? ?] ?]. cbn [call bind defer under_mutex action_of].
    rewrite Nat.eqb_refl. eauto.
  - intros [? ?]. cbn [call bind defer under_mutex action_of].
    rewrite Nat.eqb_refl. eauto.
Qed.

(** C9. Read, Write and Close on a non-nil connection hold its mutex for
    their whole duration: their first effect is to take it, their last to
    release it, and every access to the handle falls between.  Hence,
    when any number of goroutines call them on one connection, however
    the goroutines are interleaved, every access to the handle is made by
    the goroutine that holds the mutex, between its taking and its
    releasing it: the calls are serialized, and no Close falls inside a
    Read or Write of another goroutine. *)
Theorem concurrent_calls_are_serialized (c0 : Conn) (s : state W)
    (calls : list (list method)) (sched : list nat) (data : list Z) :
  heap s !! l = Some c0 -> mu c0 = false ->
  (holds_mutex_throughout l (Read (Some l) data) /\
   holds_mutex_throughout l (Write (Some l) data) /\
   holds_mutex_throughout l (Close (Some l))) /\
  serialized None
    (fst (interleave os l sched (s, map (goroutine (Some l)) calls))) = true.
Proof.
  intros Hl Hmu. split; [apply methods_hold_mutex|].
  apply interleave_serialized. split.
  - exists c0. by split.
  - intros i p Hi. cbn [snd holder] in *.
    apply list_lookup_fmap_Some in Hi as (ms & -> & _).
    apply goroutine_brackets.
Qed.

End Concurrency.

Lemma concurrent_calls_are_serialized_witness :
  let calls := [[CallRead [0; 0]; CallClose]; [CallWrite [1; 2]; CallRead [0]]] in
  let sched := [0; 1; 0; 1; 0; 1; 0; 1; 1; 0; 1; 0; 1; 0; 1; 0; 0; 1; 0; 1;
                0; 1; 0; 1; 0; 1; 1; 1; 1; 1; 1]%nat in
  let l := 0%nat in
  let start := (opened None full_device, map (goroutine (Some l)) calls) in
  (holds_mutex_throughout l (Read (Some l) [0; 0]) /\
   holds_mutex_throughout l (Write (Some l) [0; 0]) /\
   holds_mutex_throughout l (Close (Some l))) /\
  serialized None (fst (interleave mock_os l sched start)) = true /\
  fst (interleave mock_os l sched start)
  = [(0, ALock); (0, AAccess); (0, AAccess); (0, AUnlock);
     (1, ALock); (1, AAccess); (1, AAccess); (1, AUnlock);
     (0, ALock); (0, AAccess); (0, AAccess); (0, AAccess); (0, AUnlock);
     (1, ALock); (1, AAccess); (1, AUnlock)]%nat /\
  snd (snd (interleave mock_os l sched start)) = [Ret tt; Ret tt].
Proof.
  intros calls sched l start.
  destruct (concurrent_calls_are_serialized mock_os l
              (mkConn "/dev/i2c-1" 0x76 false (Some 3%nat) None)
              (opened None full_device) calls sched [0; 0]
              eq_refl eq_refl) as [Hm Hs].
  split; [exact Hm|]. split; [exact Hs|]. split; reflexivity.
Defined.

(** * Further properties of the package *)

Section Helper.

Context {W : Type} (os : FileLayer W).

(** X1. The ioctl helper on a nil connection returns the
    invalid-connection error, and on a connection whose handle is nil
    the closed error; in both cases it makes no call into the file layer
    and changes nothing.  It does not take the mutex: a held mutex does
    not keep it waiting. *)
Theorem ioctl_guards (l : loc) (c : Conn) (req arg : Z) (s : state W) :
  run os (ioctl None req arg) s = (Done (Some ErrInvalid), s, []) /\
  (heap s !! l = Some c -> f c = None ->
   run os (ioctl (Some l) req arg) s = (Done (Some ErrClosed), s, [])).
Proof.
  split; [reflexivity|]. intros Hl Hf. unfold ioctl. sim. reflexivity.
Qed.

(** X2. On an open connection, when SyscallConn and Control succeed, the
    helper makes one ioctl system call, with the request and argument it
    was given, on the file of the connection; it returns nil when the
    errno is 0 and the errno as the error otherwise, and leaves the
    connection as it was. *)
Theorem ioctl_returns_errno (l : loc) (c : Conn) (fd : File) (req arg eno : Z)
    (w1 w2 w3 : W) (s : state W) :
  heap s !! l = Some c -> f c = Some fd ->
  os_syscallconn os fd (world s) = (None, w1) ->
  os_control os fd w1 = (None, w2) ->
  os_ioctl os fd req arg w2 = (eno, w3) ->
  run os (ioctl (Some l) req arg) s =
    (Done (if eno =? 0 then None else Some (Errno eno)),
     mkState (heap s) w3,
     [EvSyscallConn fd None; EvControl fd None; EvIoctl fd req arg eno]).
Proof.
  intros Hl Hf H1 H2 H3.
  rewrite (run_ioctl_open os l c fd) by done.
  unfold ioctl_fd. by rewrite H1, H2, H3.
Qed.

End Helper.

Lemma ioctl_guards_witness :
  run mock_os (ioctl (Some 0%nat) SLAVE 0x76)
      (mkState [mkConn "/dev/i2c-1" 0x76 true None None] loopback)
  = (Done (Some ErrClosed),
     mkState [mkConn "/dev/i2c-1" 0x76 true None None] loopback, []).
Proof.
  apply (ioctl_guards mock_os 0%nat (mkConn "/dev/i2c-1" 0x76 true None None));
    reflexivity.
Defined.

Lemma ioctl_returns_errno_witness :
  run mock_os (ioctl (Some 0%nat) SLAVE 0x76) (opened None busy_device)
  = (Done (Some (Errno 16)), opened None busy_device,
     [EvSyscallConn 3%nat None; EvControl 3%nat None;
      EvIoctl 3%nat SLAVE 0x76 16]).
Proof.
  apply (ioctl_returns_errno mock_os 0%nat
           (mkConn "/dev/i2c-1" 0x76 false (Some 3%nat) None) 3%nat
           SLAVE 0x76 16 busy_device busy_device busy_device
           (opened None busy_device));
    reflexivity.
Defined.

(** Splits on the answer of the next call into the file layer. *)
Ltac os_case :=
  match goal with
  | |- context [os_syscallconn ?os ?fd ?w] =>
      destruct (os_syscallconn os fd w) as [[?|] ?]
  | |- context [os_control ?os ?fd ?w] =>
      destruct (os_control os fd w) as [[?|] ?]
  | |- context [os_ioctl ?os ?fd ?req ?arg ?w] =>
      let eno := fresh "eno" in
      destruct (os_ioctl os fd req arg w) as [eno ?];
      destruct (Z.eqb_spec eno 0)
  | |- context [os_close ?os ?fd ?w] =>
      destruct (os_close os fd w) as [? ?]
  end; cbv beta iota.

Section Constructor.

Context {W : Type} (os : FileLayer W).

(** X3. When the bus file cannot be opened, NewConn returns a nil
    connection and the error of the open; it makes no other call and
    allocates nothing. *)
Theorem NewConn_open_failure (bus : string) (addr : Z) (tenBit : bool)
    (order : option ByteOrder) (s : state W) (code : Z) (w : W) :
  os_open os bus (world s) = (inr code, w) ->
  run os (NewConn bus addr tenBit order) s =
    (Done (None, Some (OSError code)), mkState (heap s) w,
     [EvOpen bus (inr code)]).
Proof. intros Ho. by rewrite run_NewConn, Ho. Qed.

(** X4. NewConn always returns, and returns either a connection and a nil
    error or a nil connection and an error, never both or neither.  When
    it returns a connection it has closed nothing; when it returns none,
    any file it had opened has been closed. *)
Theorem NewConn_conn_or_error (bus : string) (addr : Z) (tenBit : bool)
    (order : option ByteOrder) (s : state W) :
  let r := run os (NewConn bus addr tenBit order) s in
  exists c e,
    outcome_of r = Done (c, e) /\
    (c = None <-> is_Some e) /\
    (is_Some c -> forall fd cr, ~ In (EvClose fd cr) (events_of r)) /\
    (c = None -> forall fd, In (EvOpen bus (inl fd)) (events_of r) ->
                 exists cr, In (EvClose fd cr) (events_of r)).
Proof.
  intros r. subst r. rewrite run_NewConn.
  destruct (os_open os bus (world s)) as [[fd0|e0] w0].
  2: { eexists _, _. split; [reflexivity|]. split; [by split; eauto|].
       split; [by intros []|]. intros _ fd [|[]]; discriminate. }
  pose proof (ioctl_fd_result os fd0 TENBIT (if tenBit then 1 else 0) w0) as R1.
  destruct (ioctl_fd os fd0 TENBIT (if tenBit then 1 else 0) w0)
    as [[e1 w1] t1].
  destruct R1 as [_ C1].
  assert (exists e2 w2 t2,
             match e1 with
             | Some _ => (e1, w1, [])
             | None => ioctl_fd os fd0 SLAVE addr w1
             end = (e2, w2, t2) /\ Forall is_config (t1 ++ t2))
    as (e2 & w2 & t2 & -> & C).
  { destruct e1 as [e1|].
    - eexists _, _, _. split; [reflexivity|]. by rewrite app_nil_r.
    - pose proof (ioctl_fd_result os fd0 SLAVE addr w1) as R2.
      destruct (ioctl_fd os fd0 SLAVE addr w1) as [[e2 w2] t2].
      destruct R2 as [_ C2].
      eexists _, _, _. split; [reflexivity|]. by apply Forall_app. }
  destruct e2 as [e2|].
  - destruct (os_close os fd0 w2) as [cr w3].
    eexists _, _. split; [reflexivity|]. split; [by split; eauto|].
    split; [by intros []|]. intros _ fd Hin. cbn [events_of snd] in *.
    rewrite app_assoc in *.
    assert (fd = fd0) as ->.
    { destruct Hin as [H|H]; [by injection H|].
      apply in_app_iff in H as [H|[|[|[|[]]]]]; try discriminate.
      by apply config_not_open in H. }
    exists cr. right. apply in_app_iff. right. right. by left.
  - eexists _, _. split; [reflexivity|].
    split; [split; [discriminate|by intros []]|].
    split; [|discriminate]. intros _ fd cr. cbn [events_of snd].
    intros [H|H]; [discriminate|]. by apply config_not_close in H.
Qed.

(** X5. When NewConn succeeds and Control ran its callback both times,
    what it did is: open the bus file read-write, set ten-bit addressing
    to 1 or 0 as the flag says, then bind the slave address, both on the
    opened file and both answered with errno 0.  The connection it
    returns is new, open on that file with a free mutex; the connections
    that existed are untouched. *)
Theorem NewConn_programs_device (bus : string) (addr : Z) (tenBit : bool)
    (order : option ByteOrder) (s s' : state W) (l : loc)
    (e : option error) (t : list event) :
  run os (NewConn bus addr tenBit order) s = (Done (Some l, e), s', t) ->
  (forall fd code, ~ In (EvControl fd (Some code)) t) ->
  exists fd,
    t = [EvOpen bus (inl fd);
         EvSyscallConn fd None; EvControl fd None;
         EvIoctl fd TENBIT (if tenBit then 1 else 0) 0;
         EvSyscallConn fd None; EvControl fd None;
         EvIoctl fd SLAVE addr 0] /\
    heap s' = heap s ++ [mkConn bus addr false (Some fd) None] /\
    l = length (heap s).
Proof.
  rewrite run_NewConn.
  destruct (os_open os bus (world s)) as [[fd|e0] w0]; [|discriminate].
  unfold ioctl_fd. repeat os_case; try discriminate;
    intros [= <- <- <- <-] Hno;
    try (exfalso; eapply Hno; cbn [In]; eauto 8; fail).
  subst. by exists fd.
Qed.

(** X6. When the ten-bit ioctl fails, NewConn does not go on to bind the
    slave address: no SLAVE ioctl is made. *)
Theorem NewConn_stops_at_first_failure (bus : string) (addr : Z)
    (tenBit : bool) (order : option ByteOrder) (s : state W)
    (fd : File) (arg eno : Z) :
  let r := run os (NewConn bus addr tenBit order) s in
  In (EvIoctl fd TENBIT arg eno) (events_of r) -> eno <> 0 ->
  outcome_of r = Done (None, Some (Errno eno)) /\
  forall fd' arg' eno', ~ In (EvIoctl fd' SLAVE arg' eno') (events_of r).
Proof.
  intros r. subst r. rewrite run_NewConn. unfold TENBIT, SLAVE.
  destruct (os_open os bus (world s)) as [[fd0|e0] w0]; [|no_event].
  unfold ioctl_fd. repeat os_case;
    cbn [events_of outcome_of fst snd app]; intros Hin Hne;
    repeat (destruct Hin as [Hin|Hin];
            [try discriminate Hin;
             try (injection Hin as _ _ <-; congruence)|]);
    try (destruct Hin; fail).
  injection Hin as _ _ <-. split; [reflexivity|].
  intros fd' arg' eno' Hin.
  repeat (destruct Hin as [Hin|Hin]; [discriminate Hin|]). destruct Hin.
Qed.

End Constructor.

Lemma NewConn_open_failure_witness :
  run mock_os (NewConn "/dev/i2c-9" 0x76 false (Some LittleEndian))
      (mkState [] absent_device)
  = (Done (None, Some (OSError 2)), mkState [] absent_device,
     [EvOpen "/dev/i2c-9" (inr 2)]).
Proof.
  apply (NewConn_open_failure mock_os "/dev/i2c-9" 0x76 false
           (Some LittleEndian) (mkState [] absent_device) 2 absent_device).
  reflexivity.
Defined.

Lemma NewConn_programs_device_witness :
  exists fd,
    events_of (run mock_os (NewConn "/dev/i2c-1" 0x76 true (Some LittleEndian))
                   (mkState [] loopback))
    = [EvOpen "/dev/i2c-1" (inl fd);
       EvSyscallConn fd None; EvControl fd None; EvIoctl fd TENBIT 1 0;
       EvSyscallConn fd None; EvControl fd None; EvIoctl fd SLAVE 0x76 0] /\
    heap (state_of (run mock_os
                      (NewConn "/dev/i2c-1" 0x76 true (Some LittleEndian))
                      (mkState [] loopback)))
    = [] ++ [mkConn "/dev/i2c-1" 0x76 false (Some fd) None] /\
    0%nat = length (@nil Conn).
Proof.
  apply (NewConn_programs_device mock_os "/dev/i2c-1" 0x76 true
           (Some LittleEndian) (mkState [] loopback) _ 0%nat None _ eq_refl).
  intros fd code H. vm_compute in H.
  repeat (destruct H as [H|H]; [discriminate H|]). destruct H.
Defined.

Lemma NewConn_stops_at_first_failure_witness :
  let r := run mock_os (NewConn "/dev/i2c-1" 0x76 true (Some LittleEndian))
               (mkState [] seven_bit_device) in
  outcome_of r = Done (None, Some (Errno 22)) /\
  forall fd' arg' eno', ~ In (EvIoctl fd' SLAVE arg' eno') (events_of r).
Proof.
  apply (NewConn_stops_at_first_failure mock_os "/dev/i2c-1" 0x76 true
           (Some LittleEndian) (mkState [] seven_bit_device) 3%nat 1 22).
  - vm_compute. tauto.
  - discriminate.
Defined.

Section Transfers.

Context {W : Type} (os : FileLayer W).

(** X7. Read on an open connection makes one read of the file, for the
    length of the buffer, under the mutex, and returns what that read
    returned: its count and its error, unchanged, with the bytes it
    delivered in the buffer.  It does not retry a short read, and it
    leaves the connection open and the mutex free, also when the read
    failed. *)
Theorem Read_passes_through (l : loc) (c : Conn) (fd : File) (data got : list Z)
    (n : Z) (e : option Z) (w : W) (s : state W) :
  heap s !! l = Some c -> mu c = false -> f c = Some fd ->
  os_read os fd (length data) (world s) = (got, n, e, w) ->
  run os (Read (Some l) data) s =
    (Done (fill data got, n, error_of e), mkState (heap s) w,
     [EvLock l; EvRead fd (length data) got n e; EvUnlock l]).
Proof. intros Hl Hmu Hf Hr. by rewrite run_Read, Hl, Hmu, Hf, Hr. Qed.

(** X8. Write on an open connection makes one write of the file, of the
    bytes it was given, under the mutex, and returns the count and the
    error of that write unchanged; it does not retry a short write, and
    leaves the connection open and the mutex free. *)
Theorem Write_passes_through (l : loc) (c : Conn) (fd : File) (data : list Z)
    (n : Z) (e : option Z) (w : W) (s : state W) :
  heap s !! l = Some c -> mu c = false -> f c = Some fd ->
  os_write os fd data (world s) = (n, e, w) ->
  run os (Write (Some l) data) s =
    (Done (n, error_of e), mkState (heap s) w,
     [EvLock l; EvWrite fd data n e; EvUnlock l]).
Proof. intros Hl Hmu Hf Hw. by rewrite run_Write, Hl, Hmu, Hf, Hw. Qed.

(** X9. Close on an open connection closes the file once, under the
    mutex, and returns the result of that close.  Whatever that result,
    the handle is nil afterwards, and from then on Close, Read, Write and
    ReadUint16, ReadUint32 and ReadUint64 return the closed error without
    any call into the file layer and without changing anything: the
    connection stays closed, and its file is not closed a second time. *)
Theorem Close_then_closed (l : loc) (c : Conn) (fd : File) (cr : option Z)
    (w : W) (data : list Z) (s : state W) :
  heap s !! l = Some c -> mu c = false -> f c = Some fd ->
  os_close os fd (world s) = (cr, w) ->
  let s1 := mkState (<[l := set_f None c]> (heap s)) w in
  let quiet := [EvLock l; EvUnlock l] in
  run os (Close (Some l)) s =
    (Done (error_of cr), s1, [EvLock l; EvClose fd cr; EvUnlock l]) /\
  heap s1 !! l = Some (set_f None c) /\
  run os (Close (Some l)) s1 = (Done (Some ErrClosed), s1, quiet) /\
  run os (Read (Some l) data) s1 = (Done (data, 0, Some ErrClosed), s1, quiet) /\
  run os (Write (Some l) data) s1 = (Done (0, Some ErrClosed), s1, quiet) /\
  run os (ReadUint16 (Some l)) s1 = (Done (0, Some ErrClosed), s1, quiet) /\
  run os (ReadUint32 (Some l)) s1 = (Done (0, Some ErrClosed), s1, quiet) /\
  run os (ReadUint64 (Some l)) s1 = (Done (0, Some ErrClosed), s1, quiet).
Proof.
  intros Hl Hmu Hf Hc s1 quiet.
  assert (Hl1 : heap s1 !! l = Some (set_f None c)).
  { apply list_lookup_insert_eq. by eapply lookup_lt_Some. }
  split; [by rewrite run_Close, Hl, Hmu, Hf, Hc|]. split; [exact Hl1|].
  destruct (closed_conn_stays_closed os l (set_f None c) data 0 s1 Hl1 Hmu
              eq_refl) as (H1 & H2 & H3 & H4 & H5 & H6 & _).
  done.
Qed.

Lemma ReadUint_failed (width : nat) (dec : ByteOrder -> list Z -> Z)
    (c : ptr) (s : state W) (fd : File) (len : nat) (got : list Z)
    (n code : Z) :
  In (EvRead fd len got n (Some code))
     (events_of (run os (ReadUint width dec c) s)) ->
  outcome_of (run os (ReadUint width dec c) s) = Done (0, Some (OSError code)).
Proof.
  rewrite run_ReadUint, run_Read, !length_make.
  destruct c as [l|]; [|no_event].
  destruct (heap s !! l) as [cn|]; [|no_event].
  destruct (mu cn); [no_event|].
  destruct (f cn) as [fd'|]; [|no_event].
  destruct (os_read os fd' width (world s)) as [[[got' n'] [e|]] w].
  - cbn [error_of fmap option_fmap option_map events_of outcome_of fst snd].
    intros [|[E|[|[]]]]; try discriminate. by injection E as _ _ _ _ ->.
  - cbn [error_of fmap option_fmap option_map heap].
    destruct (negb _); [no_event|].
    destruct (heap s !! l) as [c0|]; [destruct (endian c0)|]; no_event.
Qed.

Lemma WriteUint_failed (width : nat) (enc : ByteOrder -> list Z -> Z -> list Z)
    (c : ptr) (val : Z) (s : state W) (fd : File) (data : list Z)
    (n code : Z) :
  In (EvWrite fd data n (Some code))
     (events_of (run os (WriteUint width enc c val) s)) ->
  outcome_of (run os (WriteUint width enc c val) s)
  = Done (Some (OSError code)).
Proof.
  rewrite run_WriteUint.
  destruct c as [l|]; [|no_event].
  destruct (heap s !! l) as [cn|] eqn:Hl; [|no_event].
  destruct (endian cn) as [bo|]; [|no_event].
  rewrite run_Write, Hl.
  destruct (mu cn); [no_event|].
  destruct (f cn) as [fd'|]; [|no_event].
  destruct (os_write os fd' (enc bo (make width) val) (world s))
    as [[n' [e|]] w].
  - cbn [error_of fmap option_fmap option_map events_of outcome_of fst snd].
    intros [|[E|[|[]]]]; try discriminate. by injection E as _ _ _ ->.
  - cbn [error_of fmap option_fmap option_map].
    destruct (negb _); no_event.
Qed.

(** X10. When the read made by ReadUint16, ReadUint32 or ReadUint64, or
    the write made by WriteUint16, WriteUint32 or WriteUint64, fails, the
    call returns that error unchanged (with value 0 for a read), whatever
    the count that came with it: the error goes before the length
    check, and nothing is decoded. *)
Theorem failed_transfer_is_reported (c : ptr) (val : Z) (s : state W)
    (fd : File) (len : nat) (got data : list Z) (n code : Z) :
  (In (EvRead fd len got n (Some code)) (events_of (run os (ReadUint16 c) s)) ->
   outcome_of (run os (ReadUint16 c) s) = Done (0, Some (OSError code))) /\
  (In (EvRead fd len got n (Some code)) (events_of (run os (ReadUint32 c) s)) ->
   outcome_of (run os (ReadUint32 c) s) = Done (0, Some (OSError code))) /\
  (In (EvRead fd len got n (Some code)) (events_of (run os (ReadUint64 c) s)) ->
   outcome_of (run os (ReadUint64 c) s) = Done (0, Some (OSError code))) /\
  (In (EvWrite fd data n (Some code))
      (events_of (run os (WriteUint16 c val) s)) ->
   outcome_of (run os (WriteUint16 c val) s) = Done (Some (OSError code))) /\
  (In (EvWrite fd data n (Some code))
      (events_of (run os (WriteUint32 c val) s)) ->
   outcome_of (run os (WriteUint32 c val) s) = Done (Some (OSError code))) /\
  (In (EvWrite fd data n (Some code))
      (events_of (run os (WriteUint64 c val) s)) ->
   outcome_of (run os (WriteUint64 c val) s) = Done (Some (OSError code))).
Proof.
  refine (conj _ (conj _ (conj _ (conj _ (conj _ _)))));
    first [apply ReadUint_failed | apply WriteUint_failed].
Qed.

End Transfers.

Lemma Read_passes_through_witness :
  run mock_os (Read (Some 0%nat) [0; 0; 0]) (opened None short_device)
  = (Done ([7; 0; 0], 1, None), opened None short_device,
     [EvLock 0%nat; EvRead 3%nat 3 [7] 1 None; EvUnlock 0%nat]).
Proof.
  apply (Read_passes_through mock_os 0%nat
           (mkConn "/dev/i2c-1" 0x76 false (Some 3%nat) None) 3%nat
           [0; 0; 0] [7] 1 None short_device (opened None short_device));
    reflexivity.
Defined.

Lemma Write_passes_through_witness :
  run mock_os (Write (Some 0%nat) [1; 2; 3]) (opened None short_device)
  = (Done (1, None),
     mkState (heap (opened None short_device))
             (mock_write [1; 2; 3] short_device),
     [EvLock 0%nat; EvWrite 3%nat [1; 2; 3] 1 None; EvUnlock 0%nat]).
Proof.
  apply (Write_passes_through mock_os 0%nat
           (mkConn "/dev/i2c-1" 0x76 false (Some 3%nat) None) 3%nat
           [1; 2; 3] 1 None (mock_write [1; 2; 3] short_device)
           (opened None short_device));
    reflexivity.
Defined.

Lemma Close_then_closed_witness :
  let s1 := mkState [mkConn "/dev/i2c-1" 0x76 false None None] stale_device in
  run mock_os (Close (Some 0%nat)) (opened None stale_device)
  = (Done (Some (OSError 5)), s1,
     [EvLock 0%nat; EvClose 3%nat (Some 5); EvUnlock 0%nat]) /\
  run mock_os (Close (Some 0%nat)) s1
  = (Done (Some ErrClosed), s1, [EvLock 0%nat; EvUnlock 0%nat]) /\
  run mock_os (ReadUint16 (Some 0%nat)) s1
  = (Done (0, Some ErrClosed), s1, [EvLock 0%nat; EvUnlock 0%nat]).
Proof.
  intros s1.
  destruct (Close_then_closed mock_os 0%nat
              (mkConn "/dev/i2c-1" 0x76 false (Some 3%nat) None) 3%nat
              (Some 5) stale_device [] (opened None stale_device)
              eq_refl eq_refl eq_refl eq_refl)
    as (H1 & _ & H2 & _ & _ & H3 & _).
  exact (conj H1 (conj H2 H3)).
Defined.

Lemma failed_transfer_is_reported_witness :
  let s := mkState [mkConn "/dev/i2c-1" 0x76 false (Some 3%nat)
                           (Some BigEndian)] 5 in
  let c := Some 0%nat in
  outcome_of (run failing_os (ReadUint16 c) s) = Done (0, Some (OSError 5)) /\
  outcome_of (run failing_os (ReadUint32 c) s) = Done (0, Some (OSError 5)) /\
  outcome_of (run failing_os (ReadUint64 c) s) = Done (0, Some (OSError 5)) /\
  outcome_of (run failing_os (WriteUint16 c 513) s) = Done (Some (OSError 5)) /\
  outcome_of (run failing_os (WriteUint32 c 513) s) = Done (Some (OSError 5)) /\
  outcome_of (run failing_os (WriteUint64 c 513) s) = Done (Some (OSError 5)).
Proof.
  intros s c.
  pose proof (failed_transfer_is_reported failing_os c 513 s 3%nat 2%nat
                [9; 9] [2; 1] 2 5) as T2.
  pose proof (failed_transfer_is_reported failing_os c 513 s 3%nat 4%nat
                [9; 9; 9; 9] [0; 0; 2; 1] 4 5) as T4.
  pose proof (failed_transfer_is_reported failing_os c 513 s 3%nat 8%nat
                [9; 9; 9; 9; 9; 9; 9; 9] [0; 0; 0; 0; 0; 0; 2; 1] 8 5) as T8.
  destruct T2 as (R2 & _ & _ & W2 & _ & _).
  destruct T4 as (_ & R4 & _ & _ & W4 & _).
  destruct T8 as (_ & _ & R8 & _ & _ & W8).
  refine (conj _ (conj _ (conj _ (conj _ (conj _ _))))).
  - apply R2. vm_compute. tauto.
  - apply R4. vm_compute. tauto.
  - apply R8. vm_compute. tauto.
  - apply W2. vm_compute. tauto.
  - apply W4. vm_compute. tauto.
  - apply W8. vm_compute. tauto.
Defined.

(** ** The wire format *)

Lemma lor_shl (w k x b : Z) :
  0 <= k -> k + 8 <= w -> 0 <= x < 2 ^ k -> is_byte b ->
  Z.lor x (shl w b k) = x + b * 2 ^ k.
Proof.
  intros Hk Hw Hx Hb. unfold shl, is_byte in *.
  rewrite Z.shiftl_mul_pow2 by lia.
  assert (0 < 2 ^ k) by (apply Z.pow_pos_nonneg; lia).
  assert (2 ^ (k + 8) <= 2 ^ w) by (apply Z.pow_le_mono_r; lia).
  rewrite Z.pow_add_r in * by lia. change (2 ^ 8) with 256 in *.
  rewrite Z.mod_small by nia.
  rewrite <- Z.add_lor_land.
  enough (Z.land x (b * 2 ^ k) = 0) as -> by lia.
  rewrite <- Z.shiftl_mul_pow2 by lia.
  apply Z.bits_inj'. intros n Hn.
  rewrite Z.land_spec, Z.bits_0.
  destruct (Z.lt_ge_cases n k).
  - rewrite Z.shiftl_spec_low by lia. apply andb_false_r.
  - rewrite <- (Z.mod_small x (2 ^ k)) by lia.
    rewrite Z.mod_pow2_bits_high by lia. reflexivity.
Qed.

Ltac to_sum :=
  repeat match goal with
         | H : Forall is_byte (_ :: _) |- _ => apply Forall_cons_1 in H as [? H]
         end;
  unfold is_byte in *;
  rewrite ?(lor_shl _ 8) by (unfold is_byte; lia);
  rewrite ?(lor_shl _ 16) by (unfold is_byte; lia);
  rewrite ?(lor_shl _ 24) by (unfold is_byte; lia);
  rewrite ?(lor_shl _ 32) by (unfold is_byte; lia);
  rewrite ?(lor_shl _ 40) by (unfold is_byte; lia);
  rewrite ?(lor_shl _ 48) by (unfold is_byte; lia);
  rewrite ?(lor_shl _ 56) by (unfold is_byte; lia).

Lemma Uint16_wire_value (o : ByteOrder) (bs : list Z) :
  length bs = 2%nat -> Forall is_byte bs -> Uint16 o bs = wire_value o bs.
Proof.
  intros Hlen Hb. do 3 (destruct bs as [|? bs]; try discriminate).
  destruct o; cbn [Uint16 idx nth wire_value big_endian_value rev app fold_left];
    to_sum; lia.
Qed.

Lemma Uint32_wire_value (o : ByteOrder) (bs : list Z) :
  length bs = 4%nat -> Forall is_byte bs -> Uint32 o bs = wire_value o bs.
Proof.
  intros Hlen Hb. do 5 (destruct bs as [|? bs]; try discriminate).
  destruct o; cbn [Uint32 idx nth wire_value big_endian_value rev app fold_left];
    to_sum; lia.
Qed.

Lemma Uint64_wire_value (o : ByteOrder) (bs : list Z) :
  length bs = 8%nat -> Forall is_byte bs -> Uint64 o bs = wire_value o bs.
Proof.
  intros Hlen Hb. do 9 (destruct bs as [|? bs]; try discriminate).
  destruct o; cbn [Uint64 idx nth wire_value big_endian_value rev app fold_left];
    to_sum; lia.
Qed.

Lemma PutUint16_wire_bytes (o : ByteOrder) (v : Z) :
  PutUint16 o (make 2) v = wire_bytes o 2 v.
Proof.
  destruct o; cbn; unfold byte_of; rewrite ?Z.shiftr_div_pow2 by lia;
    rewrite ?Z.div_1_r; reflexivity.
Qed.

Lemma PutUint32_wire_bytes (o : ByteOrder) (v : Z) :
  PutUint32 o (make 4) v = wire_bytes o 4 v.
Proof.
  destruct o; cbn; unfold byte_of; rewrite ?Z.shiftr_div_pow2 by lia;
    rewrite ?Z.div_1_r; reflexivity.
Qed.

Lemma PutUint64_wire_bytes (o : ByteOrder) (v : Z) :
  PutUint64 o (make 8) v = wire_bytes o 8 v.
Proof.
  destruct o; cbn; unfold byte_of; rewrite ?Z.shiftr_div_pow2 by lia;
    rewrite ?Z.div_1_r; reflexivity.
Qed.

Lemma fill_bytes (n : nat) (got : list Z) :
  length (fill (make n) got) = n /\ Forall is_byte (fill (make n) got).
Proof.
  unfold fill. rewrite length_make. split.
  - rewrite length_take, length_app, length_map, length_drop, length_make. lia.
  - apply Forall_take, Forall_app. split.
    + apply List.Forall_map, List.Forall_forall. intros b _.
      apply Z.mod_pos_bound. lia.
    + apply Forall_drop, Forall_replicate. unfold is_byte. lia.
Qed.

Lemma fill_exact (got : list Z) :
  Forall is_byte got -> fill (make (length got)) got = got.
Proof.
  intros Hb. unfold fill.
  rewrite length_make, drop_ge, app_nil_r by (rewrite length_make; lia).
  rewrite <- (length_map byte_of got), firstn_all.
  induction Hb as [|b bs Hb _ IH]; [reflexivity|].
  cbn [map]. rewrite IH. f_equal. apply Z.mod_small. exact Hb.
Qed.

Section WireFormat.

Context {W : Type} (os : FileLayer W).

Lemma WriteUint_data (width : nat) (enc : ByteOrder -> list Z -> Z -> list Z)
    (l : loc) (cn : Conn) (bo : ByteOrder) (v : Z) (s : state W)
    (fd : File) (data : list Z) (n : Z) (e : option Z) :
  heap s !! l = Some cn -> endian cn = Some bo ->
  In (EvWrite fd data n e)
     (events_of (run os (WriteUint width enc (Some l) v) s)) ->
  data = enc bo (make width) v.
Proof.
  intros Hl Hbo. rewrite run_WriteUint, Hl, Hbo, run_Write, Hl.
  destruct (mu cn); [no_event|].
  destruct (f cn) as [fd'|]; [|no_event].
  destruct (os_write os fd' (enc bo (make width) v) (world s))
    as [[n' [e'|]] w];
    cbn [error_of fmap option_fmap option_map];
    [|destruct (negb _)];
    cbn [events_of snd]; intros [|[E|[|[]]]]; try discriminate;
    by injection E as _ <- _ _.
Qed.

(** X11. The bytes WriteUint16, WriteUint32 and WriteUint64 hand to the
    file are the 2, 4 or 8 low bytes of the value, most significant byte
    first on a big-endian connection and least significant byte first on
    a little-endian one. *)
Theorem WriteUint_wire_format (l : loc) (cn : Conn) (bo : ByteOrder) (v : Z)
    (s : state W) (fd : File) (data : list Z) (n : Z) (e : option Z) :
  heap s !! l = Some cn -> endian cn = Some bo ->
  (In (EvWrite fd data n e) (events_of (run os (WriteUint16 (Some l) v) s)) ->
   data = wire_bytes bo 2 v) /\
  (In (EvWrite fd data n e) (events_of (run os (WriteUint32 (Some l) v) s)) ->
   data = wire_bytes bo 4 v) /\
  (In (EvWrite fd data n e) (events_of (run os (WriteUint64 (Some l) v) s)) ->
   data = wire_bytes bo 8 v).
Proof.
  intros Hl Hbo. refine (conj _ (conj _ _)); intros Hin.
  - rewrite <- PutUint16_wire_bytes. eapply WriteUint_data; eauto.
  - rewrite <- PutUint32_wire_bytes. eapply WriteUint_data; eauto.
  - rewrite <- PutUint64_wire_bytes. eapply WriteUint_data; eauto.
Qed.

Lemma ReadUint_full (width : nat) (dec : ByteOrder -> list Z -> Z)
    (l : loc) (cn : Conn) (fd : File) (bo : ByteOrder) (got : list Z)
    (w : W) (s : state W) :
  heap s !! l = Some cn -> mu cn = false -> f cn = Some fd ->
  endian cn = Some bo ->
  os_read os fd width (world s) = (got, Z.of_nat width, None, w) ->
  run os (ReadUint width dec (Some l)) s =
    (Done (dec bo (fill (make width) got), None), mkState (heap s) w,
     [EvLock l; EvRead fd width got (Z.of_nat width) None; EvUnlock l]).
Proof.
  intros Hl Hmu Hf Hbo Hr.
  rewrite run_ReadUint, run_Read, Hl, Hmu, Hf, !length_make, Hr.
  cbn [error_of fmap option_fmap option_map heap].
  by rewrite Z.eqb_refl, Hl, Hbo.
Qed.

(** X12. When the file delivers the full 2, 4 or 8 bytes, ReadUint16,
    ReadUint32 and ReadUint64 return, with a nil error, the number those
    bytes spell in base 256: first byte most significant on a big-endian
    connection, first byte least significant on a little-endian one. *)
Theorem ReadUint_decodes (l : loc) (cn : Conn) (fd : File) (bo : ByteOrder)
    (got : list Z) (w : W) (s : state W) :
  heap s !! l = Some cn -> mu cn = false -> f cn = Some fd ->
  endian cn = Some bo -> Forall is_byte got ->
  (os_read os fd 2 (world s) = (got, 2, None, w) -> length got = 2%nat ->
   outcome_of (run os (ReadUint16 (Some l)) s) = Done (wire_value bo got, None)) /\
  (os_read os fd 4 (world s) = (got, 4, None, w) -> length got = 4%nat ->
   outcome_of (run os (ReadUint32 (Some l)) s) = Done (wire_value bo got, None)) /\
  (os_read os fd 8 (world s) = (got, 8, None, w) -> length got = 8%nat ->
   outcome_of (run os (ReadUint64 (Some l)) s) = Done (wire_value bo got, None)).
Proof.
  intros Hl Hmu Hf Hbo Hb. refine (conj _ (conj _ _)); intros Hr Hlen.
  - unfold ReadUint16. rewrite (ReadUint_full 2 Uint16 l cn fd bo got w) by done.
    rewrite <- Hlen, fill_exact by done.
    by rewrite Uint16_wire_value.
  - unfold ReadUint32. rewrite (ReadUint_full 4 Uint32 l cn fd bo got w) by done.
    rewrite <- Hlen, fill_exact by done.
    by rewrite Uint32_wire_value.
  - unfold ReadUint64. rewrite (ReadUint_full 8 Uint64 l cn fd bo got w) by done.
    rewrite <- Hlen, fill_exact by done.
    by rewrite Uint64_wire_value.
Qed.

Lemma big_endian_value_bound (bs : list Z) :
  Forall is_byte bs -> 0 <= big_endian_value bs < 256 ^ Z.of_nat (length bs).
Proof.
  unfold big_endian_value.
  enough (forall acc k, 0 <= acc < 256 ^ k -> 0 <= k -> Forall is_byte bs ->
            0 <= fold_left (fun a b => a * 256 + b) bs acc
            < 256 ^ (k + Z.of_nat (length bs))) as H.
  { intros Hb. apply (H 0 0); [lia|lia|done]. }
  induction bs as [|b bs IH]; intros acc k Hacc Hk Hb.
  - cbn. by rewrite Z.add_0_r.
  - apply Forall_cons_1 in Hb as [Hb Hbs]. unfold is_byte in Hb.
    cbn [fold_left length]. rewrite Nat2Z.inj_succ.
    replace (k + Z.succ (Z.of_nat (length bs)))
      with ((k + 1) + Z.of_nat (length bs)) by lia.
    apply IH; [|lia|done].
    rewrite Z.pow_add_r by lia. change (256 ^ 1) with 256. nia.
Qed.

Lemma ReadUint_value (width : nat) (dec : ByteOrder -> list Z -> Z)
    (c : ptr) (s : state W) (x : Z) :
  outcome_of (run os (ReadUint width dec c) s) = Done (x, None) ->
  exists bo got, x = dec bo (fill (make width) got).
Proof.
  rewrite run_ReadUint, run_Read, !length_make.
  destruct c as [l|]; [|discriminate].
  destruct (heap s !! l) as [cn|]; [|discriminate].
  destruct (mu cn); [discriminate|].
  destruct (f cn) as [fd'|]; [|discriminate].
  destruct (os_read os fd' width (world s)) as [[[got' n'] [e|]] w];
    [discriminate|].
  cbn [error_of fmap option_fmap option_map heap].
  destruct (negb _); [discriminate|].
  destruct (heap s !! l) as [c0|]; [|discriminate].
  destruct (endian c0) as [bo|]; [|discriminate].
  intros [= <-]. eauto.
Qed.

Lemma wire_value_bound (o : ByteOrder) (bs : list Z) :
  Forall is_byte bs -> 0 <= wire_value o bs < 256 ^ Z.of_nat (length bs).
Proof.
  intros Hb. destruct o; cbn [wire_value].
  - rewrite <- length_rev. apply big_endian_value_bound. by apply Forall_rev.
  - by apply big_endian_value_bound.
Qed.

(** X13. A value ReadUint16, ReadUint32 or ReadUint64 returns with a nil
    error is within the range of its type, whatever the file layer
    answered. *)
Theorem ReadUint_in_range (c : ptr) (s : state W) (x : Z) :
  (outcome_of (run os (ReadUint16 c) s) = Done (x, None) -> 0 <= x < 2 ^ 16) /\
  (outcome_of (run os (ReadUint32 c) s) = Done (x, None) -> 0 <= x < 2 ^ 32) /\
  (outcome_of (run os (ReadUint64 c) s) = Done (x, None) -> 0 <= x < 2 ^ 64).
Proof.
  refine (conj _ (conj _ _)); intros H;
    apply ReadUint_value in H as (bo & got & ->).
  - destruct (fill_bytes 2 got) as [Hlen Hb].
    pose proof (wire_value_bound bo _ Hb) as Hv. rewrite Hlen in Hv.
    by rewrite Uint16_wire_value.
  - destruct (fill_bytes 4 got) as [Hlen Hb].
    pose proof (wire_value_bound bo _ Hb) as Hv. rewrite Hlen in Hv.
    by rewrite Uint32_wire_value.
  - destruct (fill_bytes 8 got) as [Hlen Hb].
    pose proof (wire_value_bound bo _ Hb) as Hv. rewrite Hlen in Hv.
    by rewrite Uint64_wire_value.
Qed.

End WireFormat.

Lemma WriteUint_wire_format_witness :
  let s := opened (Some BigEndian) loopback in
  [0x12; 0x34] = wire_bytes BigEndian 2 0x1234 /\
  [0x12; 0x34; 0x56; 0x78] = wire_bytes BigEndian 4 0x12345678 /\
  [1; 2; 3; 4; 5; 6; 7; 8] = wire_bytes BigEndian 8 0x0102030405060708.
Proof.
  intros s.
  pose (cn := mkConn "/dev/i2c-1" 0x76 false (Some 3%nat) (Some BigEndian)).
  destruct (WriteUint_wire_format mock_os 0%nat cn BigEndian 0x1234 s 3%nat
              [0x12; 0x34] 2 None eq_refl eq_refl) as (H16 & _ & _).
  destruct (WriteUint_wire_format mock_os 0%nat cn BigEndian 0x12345678 s 3%nat
              [0x12; 0x34; 0x56; 0x78] 4 None eq_refl eq_refl) as (_ & H32 & _).
  destruct (WriteUint_wire_format mock_os 0%nat cn BigEndian
              0x0102030405060708 s 3%nat
              [1; 2; 3; 4; 5; 6; 7; 8] 8 None eq_refl eq_refl) as (_ & _ & H64).
  refine (conj _ (conj _ _)).
  - apply H16. vm_compute. tauto.
  - apply H32. vm_compute. tauto.
  - apply H64. vm_compute. tauto.
Defined.

Lemma ReadUint_decodes_witness :
  outcome_of (run mock_os (ReadUint16 (Some 0%nat))
                  (opened (Some BigEndian) full_device))
  = Done (wire_value BigEndian [1; 2], None) /\
  outcome_of (run mock_os (ReadUint32 (Some 0%nat))
                  (opened (Some LittleEndian) full_device))
  = Done (wire_value LittleEndian [1; 2; 3; 4], None) /\
  outcome_of (run mock_os (ReadUint64 (Some 0%nat))
                  (opened (Some BigEndian) full_device))
  = Done (wire_value BigEndian [1; 2; 3; 4; 5; 6; 7; 8], None).
Proof.
  assert (Hb : forall bs, forallb (fun b => (0 <=? b) && (b <? 256)) bs = true ->
                          Forall is_byte bs).
  { intros bs H. apply List.Forall_forall. intros b Hin.
    rewrite forallb_forall in H. specialize (H b Hin).
    apply andb_prop in H as [? ?]. unfold is_byte. lia. }
  refine (conj _ (conj _ _)).
  - refine (proj1 (ReadUint_decodes mock_os 0%nat
                     (mkConn "/dev/i2c-1" 0x76 false (Some 3%nat) (Some BigEndian))
                     3%nat BigEndian [1; 2] full_device
                     (opened (Some BigEndian) full_device)
                     eq_refl eq_refl eq_refl eq_refl (Hb [1; 2] eq_refl))
                  eq_refl eq_refl).
  - refine (proj1 (proj2 (ReadUint_decodes mock_os 0%nat
                     (mkConn "/dev/i2c-1" 0x76 false (Some 3%nat) (Some LittleEndian))
                     3%nat LittleEndian [1; 2; 3; 4] full_device
                     (opened (Some LittleEndian) full_device)
                     eq_refl eq_refl eq_refl eq_refl (Hb [1; 2; 3; 4] eq_refl)))
                  eq_refl eq_refl).
  - refine (proj2 (proj2 (ReadUint_decodes mock_os 0%nat
                     (mkConn "/dev/i2c-1" 0x76 false (Some 3%nat) (Some BigEndian))
                     3%nat BigEndian [1; 2; 3; 4; 5; 6; 7; 8] full_device
                     (opened (Some BigEndian) full_device)
                     eq_refl eq_refl eq_refl eq_refl
                     (Hb [1; 2; 3; 4; 5; 6; 7; 8] eq_refl)))
                  eq_refl eq_refl).
Defined.

Lemma ReadUint_in_range_witness :
  0 <= 258 < 2 ^ 16.
Proof.
  apply (proj1 (ReadUint_in_range mock_os (Some 0%nat)
                  (opened (Some BigEndian) full_device) 258)).
  reflexivity.
Defined.

Section Frame.

Context {W : Type} (os : FileLayer W).

Lemma Read_heap (p : ptr) (data : list Z) (s : state W) :
  heap (state_of (run os (Read p data) s)) = heap s.
Proof.
  rewrite run_Read. destruct p as [l|]; [|reflexivity].
  destruct (heap s !! l) as [cn|]; [|reflexivity].
  destruct (mu cn); [reflexivity|].
  destruct (f cn) as [fd|]; [|reflexivity].
  by destruct (os_read os fd (length data) (world s)) as [[[? ?] ?] ?].
Qed.

Lemma Write_heap (p : ptr) (data : list Z) (s : state W) :
  heap (state_of (run os (Write p data) s)) = heap s.
Proof.
  rewrite run_Write. destruct p as [l|]; [|reflexivity].
  destruct (heap s !! l) as [cn|]; [|reflexivity].
  destruct (mu cn); [reflexivity|].
  destruct (f cn) as [fd|]; [|reflexivity].
  by destruct (os_write os fd data (world s)) as [[? ?] ?].
Qed.

Lemma ReadUint_heap (width : nat) (dec : ByteOrder -> list Z -> Z)
    (p : ptr) (s : state W) :
  heap (state_of (run os (ReadUint width dec p) s)) = heap s.
Proof.
  rewrite run_ReadUint. pose proof (Read_heap p (make width) s) as H.
  destruct (run os (Read p (make width)) s) as [[[[[d n] [e|]]| | |] s'] t];
    cbn [state_of fst snd] in *; try done.
  destruct (negb _); [done|]. destruct p as [l|]; [|done].
  destruct (heap s' !! l) as [cn|]; [|done]. by destruct (endian cn).
Qed.

Lemma WriteUint_heap (width : nat) (enc : ByteOrder -> list Z -> Z -> list Z)
    (p : ptr) (v : Z) (s : state W) :
  heap (state_of (run os (WriteUint width enc p v) s)) = heap s.
Proof.
  rewrite run_WriteUint. destruct p as [l|]; [|reflexivity].
  destruct (heap s !! l) as [cn|]; [|reflexivity].
  destruct (endian cn) as [bo|]; [|reflexivity].
  pose proof (Write_heap (Some l) (enc bo (make width) v) s) as H.
  destruct (run os (Write (Some l) (enc bo (make width) v)) s)
    as [[[[n [e|]]| | |] s'] t]; cbn [state_of fst snd] in *; try done.
  by destruct (negb _).
Qed.

(** X14. Read, Write, ReadUint16/32/64 and WriteUint16/32/64 never change
    a connection: whatever their outcome, every [Conn] (bus, address,
    byte order, handle, and the mutex, which is free again if it was
    free) is afterwards as it was before.  Close changes at most the
    connection it is called on, and of that connection only the handle,
    which it sets to nil: bus, address and byte order never change, no
    handle is ever set to a file (a closed connection is not reopened),
    and the other connections are untouched. *)
Theorem operations_keep_connections (p : ptr) (data : list Z) (v : Z)
    (s : state W) :
  heap (state_of (run os (Read p data) s)) = heap s /\
  heap (state_of (run os (Write p data) s)) = heap s /\
  heap (state_of (run os (ReadUint16 p) s)) = heap s /\
  heap (state_of (run os (ReadUint32 p) s)) = heap s /\
  heap (state_of (run os (ReadUint64 p) s)) = heap s /\
  heap (state_of (run os (WriteUint16 p v) s)) = heap s /\
  heap (state_of (run os (WriteUint32 p v) s)) = heap s /\
  heap (state_of (run os (WriteUint64 p v) s)) = heap s /\
  only_handle_of p s (state_of (run os (Close p) s)).
Proof.
  split; [apply Read_heap|]. split; [apply Write_heap|].
  do 3 (split; [apply ReadUint_heap|]).
  do 3 (split; [apply WriteUint_heap|]).
  assert (Hsame : forall s' : state W, heap s' = heap s -> only_handle_of p s s').
  { intros s' E. unfold only_handle_of. rewrite E. split; [done|].
    intros l c Hl. exists c. unfold same_but_handle. eauto 10. }
  rewrite run_Close. destruct p as [l|]; [|by apply Hsame].
  destruct (heap s !! l) as [cn|] eqn:Hl; [|by apply Hsame].
  destruct (mu cn); [by apply Hsame|].
  destruct (f cn) as [fd|]; [|by apply Hsame].
  destruct (os_close os fd (world s)) as [cr w].
  cbn [state_of fst snd]. split; [cbn [heap]; apply length_insert|].
  intros l' c Hl'. cbn [heap].
  destruct (Nat.eq_dec l l') as [<-|Hne].
  - rewrite Hl in Hl'. injection Hl' as <-.
    exists (set_f None cn).
    rewrite list_lookup_insert_eq by (by eapply lookup_lt_Some).
    split; [done|]. split; [|congruence].
    unfold same_but_handle. cbn. eauto 10.
  - exists c. rewrite list_lookup_insert_ne by done.
    split; [done|]. split; [|done]. unfold same_but_handle. eauto 10.
Qed.

End Frame.

Section Lifecycle2.

Context {W : Type} (os : FileLayer W).

(** X19. The connection NewConn returns works on the file NewConn
    opened: Read reads that file, Write writes it, and Close closes it,
    each under the mutex of the new connection. *)
Theorem NewConn_then_use (bus : string) (addr : Z) (tenBit : bool)
    (order : option ByteOrder) (s s1 : state W) (l : loc)
    (e : option error) (t1 : list event) (data : list Z) :
  run os (NewConn bus addr tenBit order) s = (Done (Some l, e), s1, t1) ->
  exists fd,
    In (EvOpen bus (inl fd)) t1 /\
    (exists got n r,
        events_of (run os (Read (Some l) data) s1)
        = [EvLock l; EvRead fd (length data) got n r; EvUnlock l]) /\
    (exists n r,
        events_of (run os (Write (Some l) data) s1)
        = [EvLock l; EvWrite fd data n r; EvUnlock l]) /\
    (exists cr,
        events_of (run os (Close (Some l)) s1)
        = [EvLock l; EvClose fd cr; EvUnlock l] /\
        outcome_of (run os (Close (Some l)) s1) = Done (error_of cr)).
Proof.
  intros Hnew. pose proof Hnew as Hs.
  apply NewConn_success in Hs as (fd & Hl & ->). exists fd. split.
  { revert Hnew. rewrite run_NewConn.
    destruct (os_open os bus (world s)) as [[fd0|e0] w0]; [|discriminate].
    destruct (ioctl_fd os fd0 TENBIT (if tenBit then 1 else 0) w0)
      as [[e1 w1] t1'].
    destruct (match e1 with
              | Some _ => (e1, w1, [])
              | None => ioctl_fd os fd0 SLAVE addr w1
              end) as [[[e2|] w2] t2].
    - destruct (os_close os fd0 w2); discriminate.
    - intros E. injection E as El Es Et. subst l s1 t1. cbn [heap] in Hl.
      rewrite lookup_app_r, Nat.sub_diag in Hl by done.
      injection Hl as <-. by left. }
  rewrite run_Read, run_Write, run_Close, Hl. cbn [mu f].
  destruct (os_read os fd (length data) (world s1)) as [[[got n] r] w].
  destruct (os_write os fd data (world s1)) as [[n' r'] w'].
  destruct (os_close os fd (world s1)) as [cr w''].
  split; [by exists got, n, r|]. split; [by exists n', r'|]. by exists cr.
Qed.

End Lifecycle2.

Lemma NewConn_then_use_witness :
  let r := run mock_os (NewConn "/dev/i2c-1" 0x76 false (Some LittleEndian))
               (mkState [] full_device) in
  exists fd,
    In (EvOpen "/dev/i2c-1" (inl fd)) (events_of r) /\
    (exists got n e,
        events_of (run mock_os (Read (Some 0%nat) [0; 0]) (state_of r))
        = [EvLock 0%nat; EvRead fd (length [0; 0]) got n e; EvUnlock 0%nat]) /\
    (exists n e,
        events_of (run mock_os (Write (Some 0%nat) [0; 0]) (state_of r))
        = [EvLock 0%nat; EvWrite fd [0; 0] n e; EvUnlock 0%nat]) /\
    (exists cr,
        events_of (run mock_os (Close (Some 0%nat)) (state_of r))
        = [EvLock 0%nat; EvClose fd cr; EvUnlock 0%nat] /\
        outcome_of (run mock_os (Close (Some 0%nat)) (state_of r))
        = Done (error_of cr)).
Proof.
  intros r.
  apply (NewConn_then_use mock_os "/dev/i2c-1" 0x76 false (Some LittleEndian)
           (mkState [] full_device) (state_of r) 0%nat None (events_of r)
           [0; 0]).
  reflexivity.
Defined.

(** * BusFile and the example program *)

Import s35390.

(** X15. BusFile names the device file of a bus by its number in
    decimal: different bus numbers give different paths. *)
Theorem BusFile_distinct (n m : N) : BusFile n = BusFile m -> n = m.
Proof.
  unfold BusFile. intros H. apply (inj pretty).
  by apply (inj (String.app "/dev/i2c-")) in H.
Qed.

Lemma BCD_table :
  forallb (fun n => fromDeviceBCD (toDeviceBCD (Z.of_nat n)) =? Z.of_nat n)
          (seq 0 160) = true.
Proof. vm_compute. reflexivity. Qed.

(** X16. A number from 0 to 159, and so every two-digit value the
    clock chip holds, converted to the device's bit-reversed BCD byte by
    toDeviceBCD, is given back by fromDeviceBCD. *)
Theorem BCD_round_trip (v : Z) :
  0 <= v < 160 -> fromDeviceBCD (toDeviceBCD v) = v.
Proof.
  intros Hv. pose proof BCD_table as T. rewrite forallb_forall in T.
  specialize (T (Z.to_nat v)). rewrite Z2Nat.id in T by lia.
  apply Z.eqb_eq, T, in_seq. lia.
Qed.

(** X17. toDeviceBCD keeps only four bits of the tens: from 160 on it
    starts over, a number and the number 160 above it give the same
    byte. *)
Theorem BCD_wraps (v : Z) : 0 <= v -> toDeviceBCD (v + 160) = toDeviceBCD v.
Proof.
  intros Hv. unfold toDeviceBCD. f_equal. unfold uint8.
  rewrite !Z.quot_div_nonneg, !Z.rem_mod_nonneg by lia.
  replace (v + 160) with (v + 16 * 10) by lia.
  rewrite Z.div_add, Z.mod_add by lia.
  rewrite !Z.shiftl_mul_pow2 by lia. change (2 ^ 4) with 16.
  f_equal. f_equal.
  rewrite Z.mul_mod_idemp_l by lia.
  rewrite (Z.mul_mod_idemp_l (v / 10)) by lia.
  replace ((v / 10 + 16) * 16) with (v / 10 * 16 + 1 * 256) by lia.
  by rewrite Z.mod_add by lia.
Qed.

Lemma hour_table :
  forallb (fun n =>
             let h := Z.of_nat n in
             fromDeviceBCD
               (Z.land (Z.lor (toDeviceBCD h) (if h <? 12 then 0 else 2)) 0xfc)
             =? h)
          (seq 0 24) = true.
Proof. vm_compute. reflexivity. Qed.

(** X18. The seven bytes SetDate writes for a date of the years 2000 to
    2099 are read back by Now as the same year, month, day, hour, minute
    and second: the hour survives the flag SetDate sets in its byte for
    the afternoon hours, which Now masks off.  SetDate accepts exactly
    those years. *)
Theorem clock_round_trip (y month day weekday h minute second : Z) :
  0 <= y < 100 -> 1 <= month <= 12 -> 1 <= day <= 31 ->
  0 <= h < 24 -> 0 <= minute < 60 -> 0 <= second < 60 ->
  settable y = true /\
  date_fields (date_bytes y month day weekday h minute second)
  = (2000 + y, month, day, h, minute, second).
Proof.
  intros Hy Hmo Hd Hh Hmi Hs. split.
  { unfold settable. apply negb_true_iff, orb_false_iff. lia. }
  unfold date_fields, date_bytes. cbn [idx nth].
  rewrite !BCD_round_trip by lia. do 2 f_equal.
  pose proof hour_table as T. rewrite forallb_forall in T.
  specialize (T (Z.to_nat h)). cbv zeta in T. rewrite Z2Nat.id in T by lia.
  f_equal. apply Z.eqb_eq, T, in_seq. lia.
Qed.

Lemma BusFile_distinct_witness : 1%N = 1%N.
Proof. apply (BusFile_distinct 1 1). reflexivity. Defined.

Lemma BCD_round_trip_witness : fromDeviceBCD (toDeviceBCD 59) = 59.
Proof. apply BCD_round_trip. lia. Defined.

Lemma BCD_wraps_witness : toDeviceBCD (5 + 160) = toDeviceBCD 5.
Proof. apply BCD_wraps. lia. Defined.

Lemma clock_round_trip_witness :
  settable 26 = true /\
  date_fields (date_bytes 26 11 1 0 13 45 59) = (2000 + 26, 11, 1, 13, 45, 59).
Proof. apply clock_round_trip; lia. Defined.
